(** * target_s3_csv: the message loop, header reconciliation and finalizer

    A shallow embedding of [target_s3_csv/__init__.py]
    ([print_metric], [emit_state], [persist_messages], [main]) and the
    properties of the message-stream state machine that the specification
    states about it.

    Modelling conventions.
    - Python dictionaries that are only looked up and assigned
      ([schemas], [key_properties], [headers], [validators]) are [gmap]s;
      the two dictionaries the code iterates over ([filenames],
      [record_counter]) and the [OrderedDict] of the header merge keep
      their insertion order as association lists ([odict]).
    - The file system is a finite map from path to file content; a file is
      the list of the text rows it holds, one element per [write] /
      [writerow] call, line terminators left implicit.  A file is empty
      when that list is empty.
    - What the module calls but does not define ([jsonschema], [csv],
      [os.path], [json.dumps], [target_s3_csv.utils]) is an operation of the
      class [Externals]; an input line is given by what the Singer decoder
      makes of it; the call of [s3.upload_files] is represented by the list
      of files handed to it and is taken to succeed.
    - Logging and standard output are explicit outputs. *)

From stdpp Require Import gmap strings list fin_maps pretty.

Local Open Scope string_scope.
Local Open Scope list_scope.

(** ** Insertion-ordered dictionaries *)

Module OrderedDict.

Definition odict (V : Type) : Type := list (string * V).

(** [d.get(k)] *)
Fixpoint od_get {V} (k : string) (d : odict V) : option V :=
  match d with
  | [] => None
  | (k', v) :: d' => if String.eqb k k' then Some v else od_get k d'
  end.

(** [d[k] = v]: an existing key keeps its position, a new key goes last. *)
Fixpoint od_set {V} (k : string) (v : V) (d : odict V) : odict V :=
  match d with
  | [] => [(k, v)]
  | (k', v') :: d' =>
      if String.eqb k k' then (k', v) :: d' else (k', v') :: od_set k v d'
  end.

(** [d.keys()] *)
Definition od_keys {V} (d : odict V) : list string := fst <$> d.

(** [d.values()] *)
Definition od_values {V} (d : odict V) : list V := snd <$> d.

End OrderedDict.

Export OrderedDict.

(** ** Messages, configuration, outputs *)

#[local] Set Warnings "-register-all".

Inductive json : Type :=
| JNull
| JBool (b : bool)
| JNum (n : Z)
| JStr (s : string)
| JArr (items : list json)
| JObj (members : list (string * json)).

Record schema_message := {
  sm_stream : string;
  sm_schema : json;
  sm_key_properties : list string;
}.

Record record_message := {
  rm_stream : string;
  rm_record : json;
  rm_version : option Z;
  rm_time_extracted : option string;
}.

(** [o = singer.parse_message(message).asdict()], by [o['type']]. *)
Inductive message : Type :=
| SCHEMA (o : schema_message)
| RECORD (o : record_message)
| STATE (value : json)
| ACTIVATE_VERSION (stream : string) (version : Z)
| UNKNOWN (type : string).

(** One line of input: what the decoder makes of it. *)
Inductive input_line : Type :=
| Decoded (o : message)
| Undecodable (raw : string).

(** The options [persist_messages] reads itself; [None] is an absent key. *)
Record config := {
  cfg_delimiter : option string;
  cfg_quotechar : option string;
  cfg_temp_dir : option string;
  cfg_add_metadata_columns : bool;
  cfg_s3_key_prefix : option string;
  cfg_naming_convention : option string;
}.

(** [filenames[stream_name]] *)
Record file_entry := {
  fe_filename : string;
  fe_target_key : string;
}.

Inductive level := ERROR | WARNING | INFO | DEBUG.

Inductive log_event : Type :=
| UnableToParse (raw : string)
| PrecisionNotSupported
| SettingState (value : json)
| ActivateVersionSeen
| UnknownMessageType (type : string)
| Metric (table : string) (value : option nat)
| EmittingState (value : json)
| ExitingNormally.

Definition log_entry : Type := level * log_event.

(** Exceptions that leave [persist_messages]. *)
Inductive exn : Type :=
| JSONDecodeError (raw : string)
| SchemaMissing (stream : string)
| Reraised (type_name : string)
| KeyError (key : string)
| FileNotFoundError (path : string).

(** What [validator.validate(...)] does: return, or raise an exception of
    the class named [type_name]. *)
Inductive validation : Type :=
| Passed
| Raises (type_name : string).

(** ** Operations defined outside the module *)

Class Externals := {
  (* os.path, tempfile *)
  expanduser : string → string;
  path_join : string → string → string;
  gettempdir : string;
  (* jsonschema.Draft7Validator(schema).validate(instance) *)
  validator_validate : json → json → validation;
  (* next(csv.reader(file, delimiter, quotechar)) on a non-empty file *)
  csv_reader_next : string → string → list string → list string;
  (* the text csv.writer(file, delimiter, quotechar) writes for one row *)
  csv_writer_row : string → string → list json → string;
  json_dumps : json → string;
  (* target_s3_csv.utils *)
  float_to_decimal : json → json;
  add_metadata_columns_to_schema : schema_message → json;
  add_metadata_values_to_record : record_message → json;
  remove_metadata_values_from_record : record_message → json;
  flatten_record : json → odict json;
  get_target_key : record_message → string → string → option string → string;
}.

(** ** The state of the message loop *)

Record loop_state := {
  state : json;
  schemas : gmap string json;
  key_properties : gmap string (list string);
  headers : gmap string (list string);
  validators : gmap string json;
  filenames : odict file_entry;
  record_counter : odict nat;
  fs : gmap string (list string);
  log : list log_entry;
}.

Inductive outcome : Type :=
| Continue (st : loop_state)
| Abort (e : exn) (st : loop_state).

Definition initial (fs0 : gmap string (list string)) : loop_state :=
  {| state := JNull; schemas := ∅; key_properties := ∅; headers := ∅;
     validators := ∅; filenames := []; record_counter := [];
     fs := fs0; log := [] |}.

Definition logging (e : log_entry) (st : loop_state) : loop_state :=
  {| state := state st; schemas := schemas st;
     key_properties := key_properties st; headers := headers st;
     validators := validators st; filenames := filenames st;
     record_counter := record_counter st; fs := fs st;
     log := log st ++ [e] |}.

(** [(not os.path.isfile(filename)) or os.stat(filename).st_size == 0] *)
Definition file_is_empty (files : gmap string (list string)) (filename : string) : bool :=
  match files !! filename with
  | None | Some [] => true
  | Some (_ :: _) => false
  end.

(** The [OrderedDict] built at lines 117-123 and 127-134: the existing
    headers are inserted first, then the keys of the record. *)
Definition merged_sorted_headers (existing : list string) (flattened_record : odict json)
  : odict unit :=
  let merged := foldl (λ d header, od_set header tt d) [] existing in
  foldl (λ d header, od_set header tt d) merged (od_keys flattened_record).

(** The specification's reading of the same thing: the distinct names of a
    list, each at the place of its first occurrence. *)
Fixpoint first_seen (names : list string) : list string :=
  match names with
  | [] => []
  | x :: rest => x :: filter (λ y, y ≠ x) (first_seen rest)
  end.

(** One assignment [merged_sorted_headers[header] = None], seen on the keys. *)
Definition add_key (acc : list string) (x : string) : list string :=
  if decide (x ∈ acc) then acc else acc ++ [x].

(** ** The message loop *)

Section Program.

Context `{Externals}.

Variable config_ : config.
Variable now : string.

(** [config.get('delimiter', ',')] and [config.get('quotechar', ...)],
    whose default is the double quote (character 34). *)
Definition delimiter : string := default "," (cfg_delimiter config_).
Definition quotechar : string :=
  default (String (Ascii.ascii_of_nat 34) "") (cfg_quotechar config_).

(** [os.path.expanduser(config.get('temp_dir', tempfile.gettempdir()))] *)
Definition temp_dir : string :=
  expanduser (default gettempdir (cfg_temp_dir config_)).

(** Line 93: the staging file of a stream. *)
Definition staging_filename (stream_name : string) : string :=
  expanduser (path_join temp_dir (stream_name +:+ "-" +:+ now +:+ ".csv")).

(** Lines 77-84: the validator of the stream is run on the record; a
    missing validator is a [KeyError] raised inside the [try].  The
    result is the exception to re-raise, if any. *)
Definition validate_record (st : loop_state) (o : record_message) : validation :=
  match validators st !! rm_stream o with
  | Some validator => validator_validate validator (float_to_decimal (rm_record o))
  | None => Raises "KeyError"
  end.

(** Lines 86-90. *)
Definition record_to_load (o : record_message) : json :=
  if cfg_add_metadata_columns config_
  then add_metadata_values_to_record o
  else remove_metadata_values_from_record o.

(** Lines 92-104: the stream's entry of [filenames], created on the
    stream's first record. *)
Definition filenames_entry (st : loop_state) (o : record_message) : file_entry :=
  match od_get (rm_stream o) (filenames st) with
  | Some metadata => metadata
  | None =>
      {| fe_filename := staging_filename (rm_stream o);
         fe_target_key :=
           get_target_key o (default "" (cfg_s3_key_prefix config_)) now
             (cfg_naming_convention config_) |}
  end.

(** Lines 110-136: the new value of [headers[stream_name]]. *)
Definition reconcile (st : loop_state) (stream_name filename : string)
    (flattened_record : odict json) : list string :=
  match headers st !! stream_name, file_is_empty (fs st) filename with
  | None, false =>
      let first_line :=
        csv_reader_next delimiter quotechar (default [] (fs st !! filename)) in
      od_keys (merged_sorted_headers first_line flattened_record)
  | existing, _ =>
      od_keys (merged_sorted_headers (default [] existing) flattened_record)
  end.

(** [csv.DictWriter(..., extrasaction='ignore').writerow]: one cell per
    field name, [''] where the record has no such key. *)
Definition dict_to_list (fieldnames : list string) (rowdict : odict json) : list json :=
  map (λ key, default (JStr "") (od_get key rowdict)) fieldnames.

(** Line 80: [type(ex).__name__ == "InvalidOperation"]. *)
Definition is_invalid_operation (v : validation) : bool :=
  match v with
  | Raises type_name => String.eqb type_name "InvalidOperation"
  | Passed => false
  end.

(** Lines 86-152: the record is flattened, the headers of its stream
    reconciled, the row appended and the counter incremented. *)
Definition write_record (o : record_message) (st : loop_state) : loop_state :=
  let stream_name := rm_stream o in
  let metadata := filenames_entry st o in
  let filename := fe_filename metadata in
  let flattened_record := flatten_record (record_to_load o) in
  let fieldnames := reconcile st stream_name filename flattened_record in
  let row :=
    csv_writer_row delimiter quotechar (dict_to_list fieldnames flattened_record) in
  {| state := state st;
     schemas := schemas st;
     key_properties := key_properties st;
     headers := <[stream_name := fieldnames]> (headers st);
     validators := validators st;
     filenames :=
       match od_get stream_name (filenames st) with
       | Some _ => filenames st
       | None => od_set stream_name metadata (filenames st)
       end;
     record_counter :=
       od_set stream_name
         (S (default 0 (od_get stream_name (record_counter st))))
         (record_counter st);
     fs := <[filename := default [] (fs st !! filename) ++ [row]]> (fs st);
     log := log st |}.

(** Lines 69-152. *)
Definition on_record (o : record_message) (st : loop_state) : outcome :=
  match schemas st !! rm_stream o with
  | None => Abort (SchemaMissing (rm_stream o)) st
  | Some _ =>
      if is_invalid_operation (validate_record st o)
      then Abort (Reraised "InvalidOperation")
                 (logging (ERROR, PrecisionNotSupported) st)
      else Continue (write_record o st)
  end.

(** Lines 154-156. *)
Definition on_state (value : json) (st : loop_state) : loop_state :=
  let st := logging (DEBUG, SettingState value) st in
  {| state := value; schemas := schemas st;
     key_properties := key_properties st; headers := headers st;
     validators := validators st; filenames := filenames st;
     record_counter := record_counter st; fs := fs st; log := log st |}.

(** Lines 158-167. *)
Definition on_schema (o : schema_message) (st : loop_state) : loop_state :=
  let stream_name := sm_stream o in
  {| state := state st;
     schemas :=
       <[stream_name :=
           if cfg_add_metadata_columns config_
           then add_metadata_columns_to_schema o
           else sm_schema o]> (schemas st);
     key_properties := <[stream_name := sm_key_properties o]> (key_properties st);
     headers := headers st;
     validators := <[stream_name := float_to_decimal (sm_schema o)]> (validators st);
     filenames := filenames st;
     record_counter := record_counter st;
     fs := fs st;
     log := log st |}.

(** The body of the [for message in messages] loop (lines 63-171). *)
Definition step (line : input_line) (st : loop_state) : outcome :=
  match line with
  | Undecodable raw =>
      Abort (JSONDecodeError raw) (logging (ERROR, UnableToParse raw) st)
  | Decoded (RECORD o) => on_record o st
  | Decoded (STATE value) => Continue (on_state value st)
  | Decoded (SCHEMA o) => Continue (on_schema o st)
  | Decoded (ACTIVATE_VERSION _ _) =>
      Continue (logging (DEBUG, ActivateVersionSeen) st)
  | Decoded (UNKNOWN type) =>
      Continue (logging (WARNING, UnknownMessageType type) st)
  end.

Fixpoint run_loop (messages : list input_line) (st : loop_state) : outcome :=
  match messages with
  | [] => Continue st
  | line :: rest =>
      match step line st with
      | Continue st' => run_loop rest st'
      | Abort e st' => Abort e st'
      end
  end.

(** Lines 174-181, for one item of [filenames.items()].  The header line
    is joined with a comma. *)
Definition finalize_stream (item : string * file_entry) (st : loop_state) : outcome :=
  let '(stream_name, metadata) := item in
  let filename := fe_filename metadata in
  let with_fs files :=
    {| state := state st; schemas := schemas st;
       key_properties := key_properties st; headers := headers st;
       validators := validators st; filenames := filenames st;
       record_counter := record_counter st; fs := files; log := log st |} in
  match fs st !! filename with
  | None => Abort (FileNotFoundError filename) st
  | Some data_no_header =>
      match headers st !! stream_name with
      | None => Abort (KeyError stream_name) (with_fs (<[filename := []]> (fs st)))
      | Some fieldnames =>
          Continue
            (with_fs (<[filename := String.concat "," fieldnames :: data_no_header]> (fs st)))
      end
  end.

Fixpoint finalize (items : list (string * file_entry)) (st : loop_state) : outcome :=
  match items with
  | [] => Continue st
  | item :: rest =>
      match finalize_stream item st with
      | Continue st' => finalize rest st'
      | Abort e st' => Abort e st'
      end
  end.

(** Lines 23-26. *)
Definition print_metric (record_counter : odict nat) (stream_name : string)
    (st : loop_state) : loop_state :=
  logging (INFO, Metric stream_name (od_get stream_name record_counter)) st.

(** What a call of [persist_messages] leaves behind: the value returned
    and the files handed to [s3.upload_files], or the exception. *)
Inductive run_result : Type :=
| Returned (value : json) (uploaded : list file_entry) (final : loop_state)
| Raised (e : exn) (final : loop_state).

(** Lines 38-190, on the files [fs0] found on disk.  [final] is the state
    when the function returns, its [fs] the files as the finalizer leaves
    them, before the upload. *)
Definition persist_messages (fs0 : gmap string (list string))
    (messages : list input_line) : run_result :=
  match run_loop messages (initial fs0) with
  | Abort e st => Raised e st
  | Continue st =>
      match finalize (filenames st) st with
      | Abort e st' => Raised e st'
      | Continue st' =>
          let uploaded := od_values (filenames st') in
          let st'' :=
            foldl (λ acc stream_name, print_metric (record_counter st') stream_name acc)
                  st' (od_keys (record_counter st')) in
          Returned (state st'') uploaded st''
      end
  end.

(** Lines 29-34: the lines written to standard output and the log. *)
Definition emit_state (state : json) (out : list string * list log_entry)
  : list string * list log_entry :=
  match state with
  | JNull => out
  | _ => (out.1 ++ [json_dumps state], out.2 ++ [(DEBUG, EmittingState state)])
  end.

Record exit := {
  raised : option exn;
  stdout : list string;
  final_log : list log_entry;
  final_fs : gmap string (list string);
}.

(** Lines 211-215 of [main]. *)
Definition main (fs0 : gmap string (list string)) (input_messages : list input_line)
  : exit :=
  match persist_messages fs0 input_messages with
  | Raised e st =>
      {| raised := Some e; stdout := []; final_log := log st; final_fs := fs st |}
  | Returned value _ st =>
      let out := emit_state value ([], log st) in
      {| raised := None; stdout := out.1;
         final_log := out.2 ++ [(DEBUG, ExitingNormally)]; final_fs := fs st |}
  end.

End Program.

(** ** What a run is observed through *)

Section Observations.

Context `{Externals}.

Variable config_ : config.
Variable now : string.

(** The flattened form of the record of a RECORD message (lines 86-108). *)
Definition flattened (o : record_message) : odict json :=
  flatten_record (record_to_load config_ o).

Definition record_of_stream (stream_name : string) (line : input_line)
  : option record_message :=
  match line with
  | Decoded (RECORD o) =>
      if String.eqb (rm_stream o) stream_name then Some o else None
  | _ => None
  end.

(** The RECORD messages of a stream, in arrival order. *)
Definition records_for (stream_name : string) (messages : list input_line)
  : list record_message :=
  omap (record_of_stream stream_name) messages.

(** The flattened keys of those records, in arrival order. *)
Definition keys_for (stream_name : string) (messages : list input_line) : list string :=
  concat (map (λ o, od_keys (flattened o)) (records_for stream_name messages)).

Definition record_written_to (path : string) (line : input_line)
  : option record_message :=
  match line with
  | Decoded (RECORD o) =>
      if String.eqb (staging_filename config_ now (rm_stream o)) path
      then Some o else None
  | _ => None
  end.

(** The RECORD messages whose stream is staged in the file [path]. *)
Definition writes_to (path : string) (messages : list input_line)
  : list record_message :=
  omap (record_written_to path) messages.

Definition state_value (line : input_line) : option json :=
  match line with
  | Decoded (STATE value) => Some value
  | _ => None
  end.

(** The values of the STATE messages, in arrival order. *)
Definition state_values (messages : list input_line) : list json :=
  omap state_value messages.

(** No other stream of the input is staged in the file of [stream_name]. *)
Definition staging_file_unshared (stream_name : string) (messages : list input_line)
  : Prop :=
  ∀ o, o ∈ writes_to (staging_filename config_ now stream_name) messages →
       rm_stream o = stream_name.

Definition end_state (result : outcome) : loop_state :=
  match result with
  | Continue st | Abort _ st => st
  end.

(** What holds of the loop state once [messages] have been processed,
    starting on the files [fs0]. *)
Record loop_inv (fs0 : gmap string (list string))
    (messages : list input_line) (st : loop_state) : Prop := {
  inv_headers_NoDup :
    ∀ s (h : list string), headers st !! s = Some h → NoDup h;
  inv_headers_dom :
    ∀ s : string, headers st !! s = None ↔ records_for s messages = [];
  inv_filenames_NoDup : NoDup (od_keys (filenames st));
  inv_filenames_dom :
    ∀ s : string, od_get s (filenames st) = None ↔ records_for s messages = [];
  inv_filenames_path :
    ∀ s (m : file_entry),
      od_get s (filenames st) = Some m →
      fe_filename m = staging_filename config_ now s;
  inv_counter : ∀ s : string,
    od_get s (record_counter st)
    = match length (records_for s messages) with 0 => None | n => Some n end;
  inv_fs : ∀ p : string, ∃ rows,
    length rows = length (writes_to p messages) ∧
    fs st !! p = match writes_to p messages with
                 | [] => fs0 !! p
                 | _ => Some (default [] (fs0 !! p) ++ rows)
                 end;
  inv_state : state st = default JNull (last (state_values messages));
  inv_schemas : ∀ s : string, is_Some (schemas st !! s) →
    ∃ sm, Decoded (SCHEMA sm) ∈ messages ∧ sm_stream sm = s;
  inv_log : ∀ entry, entry ∈ log st → entry.1 = DEBUG ∨ entry.1 = WARNING;
}.

(** The specification on a record that fails validation with an error
    other than the precision one: the step goes on, something has been
    logged, the row is appended and the counter incremented. *)
Definition advisory_error_logged_and_persisted (st : loop_state) (o : record_message)
  : Prop :=
  ∃ st', step config_ now (Decoded (RECORD o)) st = Continue st' ∧
    length (log st) < length (log st') ∧
    length (default [] (fs st' !! staging_filename config_ now (rm_stream o)))
    = S (length (default [] (fs st !! staging_filename config_ now (rm_stream o)))) ∧
    od_get (rm_stream o) (record_counter st')
    = Some (S (default 0 (od_get (rm_stream o) (record_counter st)))).

(** The specification on row counts: in the finalized file of a stream the
    lines after the first are as many as the RECORD messages of the stream,
    and as many as its record counter says. *)
Definition row_count_matches (fs0 : gmap string (list string))
    (messages : list input_line) (stream_name : string) : Prop :=
  ∀ value uploaded fin metadata,
    persist_messages config_ now fs0 messages = Returned value uploaded fin →
    od_get stream_name (filenames fin) = Some metadata →
    ∃ header rows,
      fs fin !! fe_filename metadata = Some (header :: rows) ∧
      length rows = length (records_for stream_name messages) ∧
      od_get stream_name (record_counter fin) = Some (length rows) ∧
      (INFO, Metric stream_name (Some (length rows))) ∈ log fin.

(** Every file the finalizer is about to rewrite exists and its stream has
    headers. *)
Definition finalizable (items : list (string * file_entry)) (st : loop_state) : Prop :=
  ∀ (t : string) (m : file_entry), (t, m) ∈ items →
    is_Some (headers st !! t) ∧ is_Some (fs st !! fe_filename m).

End Observations.

(** ** A small instance of the external operations

    POSIX [os.path.join], no [~] in paths, a validator for which the schema
    [false] rejects every record and a [multipleOf] schema overflows the
    decimal context, unquoted delimiter-separated rows, and a flattener for
    records without nesting.  It is used to run the model on examples. *)

Module Sample.

Definition starts_with_slash (s : string) : bool :=
  match s with
  | String c _ => Ascii.eqb c (Ascii.ascii_of_nat 47)
  | EmptyString => false
  end.

Fixpoint ends_with_slash (s : string) : bool :=
  match s with
  | EmptyString => false
  | String c EmptyString => Ascii.eqb c (Ascii.ascii_of_nat 47)
  | String _ rest => ends_with_slash rest
  end.

Definition posix_join (a b : string) : string :=
  if starts_with_slash b then b
  else if String.eqb a "" || ends_with_slash a then a +:+ b
  else a +:+ "/" +:+ b.

Fixpoint split_on (sep : Ascii.ascii) (s : string) : list string :=
  match s with
  | EmptyString => [""]
  | String c rest =>
      if Ascii.eqb c sep then "" :: split_on sep rest
      else match split_on sep rest with
           | field :: fields => String c field :: fields
           | [] => [String c ""]
           end
  end.

Definition first_row (delimiter quotechar : string) (lines : list string) : list string :=
  match lines, delimiter with
  | "" :: _, _ | [], _ => []
  | line :: _, String sep _ => split_on sep line
  | line :: _, EmptyString => [line]
  end.

Definition cell_text (cell : json) : string :=
  match cell with
  | JStr s => s
  | JNum n => pretty n
  | JBool true => "True"
  | JBool false => "False"
  | _ => ""
  end.

Definition dumps (value : json) : string :=
  match value with
  | JNull => "null"
  | JBool true => "true"
  | JBool false => "false"
  | JNum n => pretty n
  | JStr s => s
  | JArr _ => "[...]"
  | JObj _ => "{...}"
  end.

Definition validate (schema instance : json) : validation :=
  match schema with
  | JBool false => Raises "ValidationError"
  | JObj ((keyword, _) :: _) =>
      if String.eqb keyword "multipleOf" then Raises "InvalidOperation" else Passed
  | _ => Passed
  end.

Definition flatten (record : json) : odict json :=
  match record with
  | JObj members => members
  | _ => []
  end.

#[export] Instance externals : Externals := {|
  expanduser := id;
  path_join := posix_join;
  gettempdir := "/tmp";
  validator_validate := validate;
  csv_reader_next := first_row;
  csv_writer_row := λ delimiter _ cells, String.concat delimiter (map cell_text cells);
  json_dumps := dumps;
  float_to_decimal := id;
  add_metadata_columns_to_schema := sm_schema;
  add_metadata_values_to_record := rm_record;
  remove_metadata_values_from_record := rm_record;
  flatten_record := flatten;
  get_target_key := λ o prefix timestamp _,
    prefix +:+ rm_stream o +:+ "-" +:+ timestamp +:+ ".csv";
|}.

Definition plain_config : config :=
  {| cfg_delimiter := None; cfg_quotechar := None; cfg_temp_dir := None;
     cfg_add_metadata_columns := false; cfg_s3_key_prefix := None;
     cfg_naming_convention := None |}.

Definition semicolon_config : config :=
  {| cfg_delimiter := Some ";"; cfg_quotechar := None; cfg_temp_dir := None;
     cfg_add_metadata_columns := false; cfg_s3_key_prefix := None;
     cfg_naming_convention := None |}.

Definition schema_of (stream : string) (schema : json) : input_line :=
  Decoded (SCHEMA {| sm_stream := stream; sm_schema := schema;
                     sm_key_properties := [] |}).

Definition record_of (stream : string) (members : list (string * json)) : input_line :=
  Decoded (RECORD {| rm_stream := stream; rm_record := JObj members;
                     rm_version := None; rm_time_extracted := None |}).

(** The example of the specification: two records of [users], the second
    with a new column, then a bookmark. *)
Definition users_run : list input_line :=
  [ schema_of "users" (JObj []);
    record_of "users" [("id", JNum 1); ("name", JStr "a")];
    record_of "users" [("id", JNum 2); ("name", JStr "b"); ("email", JStr "x")];
    Decoded (STATE (JStr "bookmark-2")) ].

Definition no_files : gmap string (list string) := ∅.

(** A staging file left behind by an earlier run. *)
Definition stale_files : gmap string (list string) :=
  {[ "/tmp/users-T.csv" := ["x,y"] ]}.

Definition users_schema_and_first_record : list input_line :=
  [ schema_of "users" (JObj []);
    record_of "users" [("id", JNum 1); ("name", JStr "a")] ].

Definition third_user : record_message :=
  {| rm_stream := "users";
     rm_record := JObj [("name", JStr "c"); ("id", JNum 3)];
     rm_version := None; rm_time_extracted := None |}.

(** The state the loop reaches on a list of messages, from no files. *)
Definition reached (config_ : config) (messages : list input_line) : loop_state :=
  end_state (run_loop config_ "T" messages (initial no_files)).

End Sample.

(** ** Further observations of a run *)

Section FurtherObservations.

Context `{Externals}.

Variable config_ : config.
Variable now : string.

Definition record_stream (line : input_line) : option string :=
  match line with
  | Decoded (RECORD o) => Some (rm_stream o)
  | _ => None
  end.

(** The stream names of the RECORD messages, in arrival order. *)
Definition record_streams (messages : list input_line) : list string :=
  omap record_stream messages.

Definition schema_of_stream (stream_name : string) (line : input_line)
  : option schema_message :=
  match line with
  | Decoded (SCHEMA o) =>
      if String.eqb (sm_stream o) stream_name then Some o else None
  | _ => None
  end.

(** The SCHEMA messages of a stream, in arrival order. *)
Definition schemas_for (stream_name : string) (messages : list input_line)
  : list schema_message :=
  omap (schema_of_stream stream_name) messages.

(** The entry of [filenames] a stream gets from its first record. *)
Definition staged_entry (messages : list input_line) (stream_name : string)
  : option file_entry :=
  match records_for stream_name messages with
  | [] => None
  | o :: _ =>
      Some {| fe_filename := staging_filename config_ now stream_name;
              fe_target_key :=
                get_target_key o (default "" (cfg_s3_key_prefix config_)) now
                  (cfg_naming_convention config_) |}
  end.

(** The header row a stream finds in its staging file when its first record
    arrives: none in an absent or empty file, else the first row as the csv
    reader splits it. *)
Definition found_header (files : gmap string (list string)) (filename : string)
  : list string :=
  if file_is_empty files filename then []
  else csv_reader_next (delimiter config_) (quotechar config_)
         (default [] (files !! filename)).

(** The row written for a record under the field names [fieldnames]. *)
Definition row_of (fieldnames : list string) (o : record_message) : string :=
  csv_writer_row (delimiter config_) (quotechar config_)
    (dict_to_list fieldnames (flattened config_ o)).

(** The rows the records of one stream leave in its staging file: each is
    written under the header set as it stands once the record has been
    reconciled, and is not touched again. *)
Fixpoint staged_rows (fieldnames : list string) (records : list record_message)
  : list string :=
  match records with
  | [] => []
  | o :: rest =>
      let fieldnames' := first_seen (fieldnames ++ od_keys (flattened config_ o)) in
      row_of fieldnames' o :: staged_rows fieldnames' rest
  end.





End FurtherObservations.

(** Further sample inputs. *)
Module MoreSamples.

Import Sample.

(** A staging file left behind with a header row in it. *)
Definition resumed_files : gmap string (list string) :=
  {[ "/tmp/users-T.csv" := ["name,age"; "z,40"] ]}.

Definition orders_and_users : list input_line :=
  [ schema_of "orders" (JObj []);
    schema_of "users" (JObj []);
    record_of "users" [("id", JNum 1); ("name", JStr "a")];
    Decoded (ACTIVATE_VERSION "users" 1);
    record_of "orders" [("sku", JStr "k")];
    Decoded (UNKNOWN "BATCH");
    record_of "users" [("id", JNum 2); ("email", JStr "x")];
    Decoded (STATE (JStr "bookmark-2"));
    schema_of "users" (JBool true) ].

End MoreSamples.


(** * Properties *)

(** ** Ordered dictionaries *)

Section OrderedDictFacts.

Context {V : Type}.
Implicit Types (d : odict V) (k : string) (v : V).

Lemma od_get_None k d : od_get k d = None ↔ k ∉ od_keys d.
Proof.
  induction d as [|[k' v'] d IH]; simpl.
  - split; [intros _; apply not_elem_of_nil | done].
  - rewrite not_elem_of_cons. destruct (String.eqb_spec k k') as [->|Hne].
    + split; [done | intros [? _]; done].
    + rewrite IH. tauto.
Qed.

Lemma od_get_Some_elem k v d : od_get k d = Some v → (k, v) ∈ d.
Proof.
  induction d as [|[k' v'] d IH]; simpl; [done|].
  destruct (String.eqb_spec k k') as [->|Hne].
  - intros [= ->]. apply list_elem_of_here.
  - intros Hget. apply list_elem_of_further, IH, Hget.
Qed.

Lemma od_get_is_Some k d : is_Some (od_get k d) ↔ k ∈ od_keys d.
Proof.
  rewrite <- not_eq_None_Some, od_get_None.
  destruct (decide (k ∈ od_keys d)); tauto.
Qed.

Lemma od_get_set_eq k v d : od_get k (od_set k v d) = Some v.
Proof.
  induction d as [|[k' v'] d IH]; simpl.
  - by rewrite String.eqb_refl.
  - destruct (String.eqb_spec k k') as [->|Hne]; simpl.
    + by rewrite String.eqb_refl.
    + destruct (String.eqb_spec k k'); [done | apply IH].
Qed.

Lemma od_get_set_ne k k' v d : k ≠ k' → od_get k' (od_set k v d) = od_get k' d.
Proof.
  intros Hne. induction d as [|[k0 v0] d IH]; simpl.
  - destruct (String.eqb_spec k' k); [congruence | done].
  - destruct (String.eqb_spec k k0) as [->|Hne0]; simpl.
    + destruct (String.eqb_spec k' k0); [congruence | done].
    + destruct (String.eqb_spec k' k0); [done | apply IH].
Qed.

Lemma od_keys_set k v d :
  od_keys (od_set k v d) = if decide (k ∈ od_keys d) then od_keys d else od_keys d ++ [k].
Proof.
  unfold od_keys. induction d as [|[k' v'] d IH].
  - case_decide as Hin; [by apply elem_of_nil in Hin | done].
  - cbn [od_set fmap list_fmap fst].
    destruct (String.eqb_spec k k') as [->|Hne]; cbn [fmap list_fmap fst].
    + by rewrite decide_True by apply list_elem_of_here.
    + rewrite IH. destruct (decide (k ∈ fst <$> d)) as [Hin|Hnin].
      * by rewrite decide_True by (by apply list_elem_of_further).
      * rewrite decide_False; [done|].
        rewrite not_elem_of_cons. done.
Qed.

Lemma od_keys_set_NoDup k v d : NoDup (od_keys d) → NoDup (od_keys (od_set k v d)).
Proof.
  intros Hnd. rewrite od_keys_set. case_decide; [done|].
  apply NoDup_app. split_and!; [done | | apply NoDup_singleton].
  intros x Hx ->%list_elem_of_singleton. done.
Qed.

Lemma od_elem_get k v d : NoDup (od_keys d) → (k, v) ∈ d → od_get k d = Some v.
Proof.
  induction d as [|[k' v'] d IH]; simpl; [intros _ []%elem_of_nil|].
  intros [Hnin Hnd]%NoDup_cons [[= -> ->]|Hin]%elem_of_cons.
  - by rewrite String.eqb_refl.
  - destruct (String.eqb_spec k k') as [->|Hne]; [|by apply IH].
    exfalso. apply Hnin. unfold od_keys.
    apply list_elem_of_fmap. by exists (k', v).
Qed.

End OrderedDictFacts.

(** ** The header merge is the first-seen union *)

Section FirstSeen.

Implicit Types (l acc : list string) (x : string).

Lemma filter_all (P : string → Prop) `{!∀ x, Decision (P x)} l :
  (∀ x, x ∈ l → P x) → filter P l = l.
Proof.
  induction l as [|y l IH]; intros HP; [done|].
  rewrite filter_cons_True by (apply HP, list_elem_of_here).
  f_equal. apply IH. intros x Hx. by apply HP, list_elem_of_further.
Qed.

Lemma filter_none (P : string → Prop) `{!∀ x, Decision (P x)} l :
  (∀ x, x ∈ l → ¬ P x) → filter P l = [].
Proof.
  induction l as [|y l IH]; intros HP; [done|].
  rewrite filter_cons_False by (apply HP, list_elem_of_here).
  apply IH. intros x Hx. by apply HP, list_elem_of_further.
Qed.

Lemma filter_twice (P Q : string → Prop)
    `{!∀ x, Decision (P x), !∀ x, Decision (Q x)} l :
  filter P (filter Q l) = filter Q (filter P l).
Proof. rewrite !list_filter_filter. apply list_filter_iff. tauto. Qed.

Lemma first_seen_elem x l : x ∈ first_seen l ↔ x ∈ l.
Proof.
  induction l as [|y l IH]; [done|]. cbn [first_seen].
  rewrite !elem_of_cons, list_elem_of_filter, IH.
  destruct (decide (x = y)); tauto.
Qed.

Lemma first_seen_NoDup l : NoDup (first_seen l).
Proof.
  induction l as [|y l IH]; cbn [first_seen]; [constructor|].
  apply NoDup_cons. split.
  - rewrite list_elem_of_filter. tauto.
  - by apply NoDup_filter.
Qed.

Lemma first_seen_filter (P : string → Prop) `{!∀ x, Decision (P x)} l :
  first_seen (filter P l) = filter P (first_seen l).
Proof.
  induction l as [|y l IH]; [done|]. cbn [first_seen].
  destruct (decide (P y)) as [HP|HP].
  - rewrite !filter_cons_True by done. cbn [first_seen].
    rewrite IH. f_equal. apply filter_twice.
  - rewrite !filter_cons_False by done. rewrite IH.
    symmetry. apply list_filter_filter_l. by intros x HPx ->.
Qed.

Lemma first_seen_id l : NoDup l → first_seen l = l.
Proof.
  induction 1 as [|y l Hnin Hnd IH]; [done|]. cbn [first_seen].
  rewrite IH. f_equal. apply filter_all. by intros x Hx ->.
Qed.

Lemma foldl_add_key acc l :
  foldl add_key acc l = acc ++ first_seen (filter (λ x, x ∉ acc) l).
Proof.
  revert acc. induction l as [|y l IH]; intros acc; cbn [foldl].
  - by rewrite app_nil_r.
  - rewrite IH. unfold add_key.
    destruct (decide (y ∈ acc)) as [Hin|Hnin].
    + by rewrite filter_cons_False by tauto.
    + rewrite filter_cons_True by done. cbn [first_seen].
      rewrite <- app_assoc. cbn [app]. do 2 f_equal.
      rewrite <- first_seen_filter. f_equal.
      rewrite list_filter_filter. apply list_filter_iff.
      intros x. rewrite elem_of_app, list_elem_of_singleton. tauto.
Qed.

Lemma first_seen_app a b :
  first_seen (a ++ b) = first_seen a ++ filter (λ x, x ∉ a) (first_seen b).
Proof.
  induction a as [|y a IH]; cbn [app first_seen].
  - symmetry. apply filter_all. intros x _. apply not_elem_of_nil.
  - rewrite IH, filter_app. do 2 f_equal.
    rewrite list_filter_filter. apply list_filter_iff.
    intros x. rewrite not_elem_of_cons. tauto.
Qed.

Lemma first_seen_absorb a b : first_seen (first_seen a ++ b) = first_seen (a ++ b).
Proof.
  rewrite !first_seen_app, (first_seen_id (first_seen a)) by apply first_seen_NoDup.
  f_equal. apply list_filter_iff. intros x. by rewrite first_seen_elem.
Qed.

Lemma merged_keys existing (flattened_record : odict json) :
  od_keys (merged_sorted_headers existing flattened_record)
  = first_seen (existing ++ od_keys flattened_record).
Proof.
  assert (Hfold : ∀ ks (d : odict unit),
    od_keys (foldl (λ d header, od_set header tt d) d ks) = foldl add_key (od_keys d) ks).
  { induction ks as [|k ks IH]; intros d; cbn [foldl]; [done|].
    rewrite IH. f_equal. apply od_keys_set. }
  unfold merged_sorted_headers. rewrite !Hfold, <- foldl_app.
  rewrite foldl_add_key. cbn [od_keys fmap list_fmap app]. f_equal.
  apply filter_all. intros x _. apply not_elem_of_nil.
Qed.

Lemma first_seen_prefix a b : NoDup a → a `prefix_of` first_seen (a ++ b).
Proof.
  intros Hnd. rewrite first_seen_app, (first_seen_id a) by done.
  by apply prefix_app_r.
Qed.

Lemma first_seen_included a b :
  NoDup a → (∀ x, x ∈ b → x ∈ a) → first_seen (a ++ b) = a.
Proof.
  intros Hnd Hsub. rewrite first_seen_app, (first_seen_id a) by done.
  rewrite filter_none; [by rewrite app_nil_r|].
  intros x Hx Hnin. apply (proj1 (first_seen_elem x b)) in Hx. auto.
Qed.

End FirstSeen.

(** ** The loop, message by message *)

Section LoopFacts.

Context `{Externals}.

Variable config_ : config.
Variable now : string.

Local Abbreviation path := (staging_filename config_ now).

Implicit Types (st : loop_state) (o : record_message) (line : input_line)
  (messages : list input_line) (s p : string).

Lemma run_loop_app messages1 messages2 st :
  run_loop config_ now (messages1 ++ messages2) st
  = match run_loop config_ now messages1 st with
    | Continue st' => run_loop config_ now messages2 st'
    | Abort e st' => Abort e st'
    end.
Proof.
  revert st. induction messages1 as [|line rest IH]; intros st; [done|].
  cbn [app run_loop]. destruct (step config_ now line st); [apply IH | done].
Qed.

Lemma run_loop_snoc messages line st st' :
  run_loop config_ now (messages ++ [line]) st = Continue st' →
  ∃ st1, run_loop config_ now messages st = Continue st1
         ∧ step config_ now line st1 = Continue st'.
Proof.
  rewrite run_loop_app.
  destruct (run_loop config_ now messages st) as [st1|]; [|done].
  cbn [run_loop]. destruct (step config_ now line st1) eqn:Hstep; [|done].
  intros [= <-]. eauto.
Qed.

Lemma on_record_Continue o st st' :
  on_record config_ now o st = Continue st' →
  is_Some (schemas st !! rm_stream o) ∧
  is_invalid_operation (validate_record st o) = false ∧
  st' = write_record config_ now o st.
Proof.
  unfold on_record. destruct (schemas st !! rm_stream o); [|done].
  destruct (is_invalid_operation _); [done|]. intros [= <-]. eauto.
Qed.

(** The new header set of a record step is a first-seen union. *)
Lemma reconcile_first_seen st s filename (flattened_record : odict json) :
  ∃ existing,
    reconcile config_ st s filename flattened_record
    = first_seen (existing ++ od_keys flattened_record) ∧
    (∀ h, headers st !! s = Some h → existing = h) ∧
    (headers st !! s = None → file_is_empty (fs st) filename = true → existing = []).
Proof.
  unfold reconcile. destruct (headers st !! s) as [h|] eqn:Hh.
  - exists h. rewrite merged_keys. split_and!; [done | by intros ? [= ->] | done].
  - destruct (file_is_empty (fs st) filename).
    + exists []. rewrite merged_keys. done.
    + eexists. rewrite merged_keys. split_and!; [done | done | done].
Qed.

Lemma reconcile_NoDup st s filename (flattened_record : odict json) :
  NoDup (reconcile config_ st s filename flattened_record).
Proof.
  destruct (reconcile_first_seen st s filename flattened_record) as (? & -> & _).
  apply first_seen_NoDup.
Qed.

Lemma records_for_snoc s messages line :
  records_for s (messages ++ [line])
  = records_for s messages ++ from_option (λ o, [o]) [] (record_of_stream s line).
Proof.
  unfold records_for. rewrite omap_app. done.
Qed.

Lemma writes_to_snoc p messages line :
  writes_to config_ now p (messages ++ [line])
  = writes_to config_ now p messages
    ++ from_option (λ o, [o]) [] (record_written_to config_ now p line).
Proof.
  unfold writes_to. rewrite omap_app. done.
Qed.

Lemma state_values_snoc messages line :
  state_values (messages ++ [line])
  = state_values messages ++ from_option (λ v, [v]) [] (state_value line).
Proof.
  unfold state_values. rewrite omap_app. done.
Qed.

Lemma keys_for_snoc s messages line :
  keys_for config_ s (messages ++ [line])
  = keys_for config_ s messages
    ++ from_option (λ o, od_keys (flattened config_ o)) [] (record_of_stream s line).
Proof.
  unfold keys_for. rewrite records_for_snoc, map_app, concat_app. f_equal.
  destruct (record_of_stream s line); cbn; [apply app_nil_r | done].
Qed.

Lemma record_of_stream_Some s o :
  record_of_stream s (Decoded (RECORD o))
  = if decide (rm_stream o = s) then Some o else None.
Proof.
  cbn. destruct (String.eqb_spec (rm_stream o) s); by case_decide.
Qed.

Lemma record_written_to_Some p o :
  record_written_to config_ now p (Decoded (RECORD o))
  = if decide (path (rm_stream o) = p) then Some o else None.
Proof.
  cbn. destruct (String.eqb_spec (path (rm_stream o)) p); by case_decide.
Qed.

Lemma loop_inv_initial fs0 : loop_inv config_ now fs0 [] (initial fs0).
Proof.
  split; cbn; try done.
  - constructor.
  - intros p. by exists [].
  - intros s [? Hs]. by rewrite lookup_empty in Hs.
  - intros entry []%elem_of_nil.
Qed.

Lemma filenames_entry_path st o :
  (∀ s m, od_get s (filenames st) = Some m → fe_filename m = path s) →
  fe_filename (filenames_entry config_ now st o) = path (rm_stream o).
Proof.
  intros Hpath. unfold filenames_entry.
  destruct (od_get (rm_stream o) (filenames st)) eqn:Hget; [by apply Hpath | done].
Qed.


Lemma loop_inv_write_record fs0 messages st o :
  loop_inv config_ now fs0 messages st →
  loop_inv config_ now fs0 (messages ++ [Decoded (RECORD o)]) (write_record config_ now o st).
Proof.
  intros [HND Hhdom HfND Hfdom Hfpath Hcount Hfs Hstate Hschemas Hlog].
  pose proof (filenames_entry_path st o Hfpath) as Hfile.
  split.
  - intros s h. cbn [headers write_record]. rewrite lookup_insert.
    case_decide as Heq; [intros [= <-]; apply reconcile_NoDup | apply HND].
  - intros s. cbn [headers write_record].
    rewrite records_for_snoc, record_of_stream_Some, lookup_insert.
    destruct (decide (rm_stream o = s)) as [Heq|Hne]; cbn [from_option].
    + split; [done | by intros [_ ?]%app_eq_nil].
    + by rewrite app_nil_r.
  - cbn [filenames write_record].
    destruct (od_get (rm_stream o) (filenames st)); [done|].
    by apply od_keys_set_NoDup.
  - intros s. cbn [filenames write_record].
    rewrite records_for_snoc, record_of_stream_Some.
    destruct (decide (rm_stream o = s)) as [<-|Hne]; cbn [from_option].
    + destruct (od_get (rm_stream o) (filenames st)) eqn:Hget.
      * rewrite Hget. split; [done | by intros [_ ?]%app_eq_nil].
      * rewrite od_get_set_eq. split; [done | by intros [_ ?]%app_eq_nil].
    + rewrite app_nil_r, <- Hfdom.
      destruct (od_get (rm_stream o) (filenames st)); [done|].
      by rewrite od_get_set_ne.
  - intros s m. cbn [filenames write_record].
    destruct (od_get (rm_stream o) (filenames st)) eqn:Hget; [apply Hfpath|].
    destruct (decide (rm_stream o = s)) as [<-|Hne].
    + rewrite od_get_set_eq. intros [= <-]. exact Hfile.
    + rewrite od_get_set_ne by done. apply Hfpath.
  - intros s. cbn [record_counter write_record].
    rewrite records_for_snoc, record_of_stream_Some.
    destruct (decide (rm_stream o = s)) as [<-|Hne]; cbn [from_option].
    + rewrite od_get_set_eq, Hcount, length_app. cbn [length].
      rewrite Nat.add_1_r. by destruct (length (records_for (rm_stream o) messages)).
    + rewrite app_nil_r, od_get_set_ne by done. apply Hcount.
  - intros p. cbn [fs write_record]. rewrite Hfile.
    rewrite writes_to_snoc, record_written_to_Some.
    destruct (Hfs p) as (rows & Hlen & Hp).
    destruct (decide (path (rm_stream o) = p)) as [->|Hne]; cbn [from_option].
    + rewrite lookup_insert_eq, Hp.
      destruct (writes_to config_ now p messages) as [|o1 os] eqn:Hw.
      * eexists [_]. split; [done|]. cbn [app].
        by destruct rows.
      * eexists (rows ++ [_]). rewrite !length_app, Hlen. cbn [length default].
        split; [done|]. cbn [app]. by rewrite app_assoc.
    + rewrite lookup_insert_ne, app_nil_r by done. eauto.
  - cbn [state write_record]. by rewrite state_values_snoc, app_nil_r.
  - intros s (sm & Hin & Hsm)%Hschemas. exists sm. rewrite elem_of_app. eauto.
  - exact Hlog.
Qed.

Lemma loop_inv_logging fs0 messages st e :
  e.1 = DEBUG ∨ e.1 = WARNING →
  loop_inv config_ now fs0 messages st → loop_inv config_ now fs0 messages (logging e st).
Proof.
  intros He []. split; try done.
  intros entry [?| ->%list_elem_of_singleton]%elem_of_app; auto.
Qed.

Lemma loop_inv_skip fs0 messages st line :
  record_of_stream (match line with
                    | Decoded (RECORD o) => rm_stream o
                    | _ => ""
                    end) line = None →
  state_value line = None →
  (∀ sm, line ≠ Decoded (SCHEMA sm)) →
  loop_inv config_ now fs0 messages st → loop_inv config_ now fs0 (messages ++ [line]) st.
Proof.
  intros Hrec Hstate Hschema [].
  assert (Hr : ∀ s, record_of_stream s line = None).
  { intros s. destruct line as [[]|]; try done.
    cbn in Hrec. by rewrite String.eqb_refl in Hrec. }
  assert (Hw : ∀ p, record_written_to config_ now p line = None).
  { intros p. destruct line as [[]|]; try done.
    cbn in Hrec. by rewrite String.eqb_refl in Hrec. }
  split; intros;
    rewrite ?records_for_snoc, ?writes_to_snoc, ?state_values_snoc, ?Hr, ?Hw, ?Hstate;
    cbn [from_option]; rewrite ?app_nil_r; eauto.
  destruct (inv_schemas0 s) as (sm & ? & ?); [done|].
  exists sm. rewrite elem_of_app. eauto.
Qed.

Lemma loop_inv_step fs0 messages st line st' :
  loop_inv config_ now fs0 messages st →
  step config_ now line st = Continue st' →
  loop_inv config_ now fs0 (messages ++ [line]) st'.
Proof.
  intros Hinv. destruct line as [[o|o|value|stream version|type]|raw];
    cbn [step]; [| | | | |done].
  - intros [= <-]. destruct Hinv.
    split; cbn [on_schema headers filenames record_counter fs state log schemas];
      intros;
      rewrite ?records_for_snoc, ?writes_to_snoc, ?state_values_snoc;
      cbn [from_option record_of_stream record_written_to state_value];
      rewrite ?app_nil_r; eauto.
    destruct (decide (sm_stream o = s)) as [<-|Hne].
    + exists o. rewrite elem_of_app, list_elem_of_singleton. eauto.
    + rewrite lookup_insert_ne in * by done.
      destruct (inv_schemas0 s) as (sm & ? & ?); [done|].
      exists sm. rewrite elem_of_app. eauto.
  - intros (_ & _ & ->)%on_record_Continue. by apply loop_inv_write_record.
  - intros [= <-]. destruct Hinv.
    split; cbn [on_state logging headers filenames record_counter fs state log schemas];
      intros;
      rewrite ?records_for_snoc, ?writes_to_snoc;
      cbn [from_option record_of_stream record_written_to];
      rewrite ?app_nil_r; eauto.
    + rewrite state_values_snoc. cbn [state_value from_option]. by rewrite last_snoc.
    + destruct (inv_schemas0 s) as (sm & ? & ?); [done|].
      exists sm. rewrite elem_of_app. eauto.
    + match goal with
      | Hin : _ ∈ _ ++ [_] |- _ =>
          apply elem_of_app in Hin as [?| ->%list_elem_of_singleton]; auto
      end.
  - intros [= <-]. apply loop_inv_logging; [by left|]. by apply loop_inv_skip.
  - intros [= <-]. apply loop_inv_logging; [by right|]. by apply loop_inv_skip.
Qed.

Lemma run_loop_inv fs0 messages st :
  run_loop config_ now messages (initial fs0) = Continue st →
  loop_inv config_ now fs0 messages st.
Proof.
  revert st. induction messages as [|line messages IH] using rev_ind; intros st.
  - intros [= <-]. apply loop_inv_initial.
  - intros (st1 & Hrun & Hstep)%run_loop_snoc. eapply loop_inv_step; eauto.
Qed.


(** *** The finalizer *)

Lemma finalize_stream_spec t m st h data :
  headers st !! t = Some h →
  fs st !! fe_filename m = Some data →
  ∃ st', finalize_stream (t, m) st = Continue st' ∧
    headers st' = headers st ∧ filenames st' = filenames st ∧
    record_counter st' = record_counter st ∧ state st' = state st ∧
    log st' = log st ∧
    fs st' = <[fe_filename m := String.concat "," h :: data]> (fs st).
Proof.
  intros Hh Hdata. unfold finalize_stream. rewrite Hdata, Hh.
  eexists. split; [done|]. by cbn.
Qed.

Lemma finalize_spec items st :
  finalizable items st →
  ∃ st', finalize items st = Continue st' ∧
    headers st' = headers st ∧ filenames st' = filenames st ∧
    record_counter st' = record_counter st ∧ state st' = state st ∧
    log st' = log st ∧
    (∀ p, (∀ t m, (t, m) ∈ items → fe_filename m ≠ p) → fs st' !! p = fs st !! p) ∧
    (∀ t m, (t, m) ∈ items → NoDup items.*1 →
       (∀ t' m', (t', m') ∈ items → fe_filename m' = fe_filename m → t' = t) →
       ∃ h data, headers st !! t = Some h ∧ fs st !! fe_filename m = Some data ∧
         fs st' !! fe_filename m = Some (String.concat "," h :: data)).
Proof.
  revert st. induction items as [|[t0 m0] items IH]; intros st Hfin.
  - exists st. split_and!; try done. intros ?? []%elem_of_nil.
  - destruct (Hfin t0 m0) as [[h0 Hh0] [data0 Hdata0]]; [apply list_elem_of_here|].
    destruct (finalize_stream_spec t0 m0 st h0 data0 Hh0 Hdata0)
      as (st1 & Hstep & Hh1 & Hf1 & Hc1 & Hs1 & Hl1 & Hfs1).
    destruct (IH st1) as (st' & Hrest & Hh & Hf & Hc & Hs & Hl & Hframe & Hone).
    { intros t m Hin. rewrite Hh1, Hfs1.
      destruct (Hfin t m) as [? [data Hdata]]; [by apply list_elem_of_further|].
      split; [done|]. rewrite lookup_insert. case_decide; eauto. }
    exists st'. cbn [finalize]. rewrite Hstep.
    split_and!; [done | congruence.. | |].
    + intros p Hp. rewrite Hframe, Hfs1.
      * apply lookup_insert_ne. eapply Hp, list_elem_of_here.
      * intros t m Hin. by eapply Hp, list_elem_of_further.
    + intros t m Hin Hnd Huniq. cbn [fmap list_fmap fst] in Hnd.
      apply NoDup_cons in Hnd as [Hnin Hnd].
      apply elem_of_cons in Hin as [[= -> ->]|Hin].
      * exists h0, data0. split_and!; [done..|].
        rewrite Hframe, Hfs1; [apply lookup_insert_eq|].
        intros t' m' Hin' Heq. apply Hnin.
        rewrite (Huniq t' m') in Hin'; [|by apply list_elem_of_further|done].
        apply list_elem_of_fmap. by exists (t0, m').
      * assert (Hne : fe_filename m0 ≠ fe_filename m).
        { intros Heq. apply Hnin.
          rewrite (Huniq t0 m0); [|apply list_elem_of_here|done].
          apply list_elem_of_fmap. by exists (t, m). }
        destruct (Hone t m Hin Hnd) as (h & data & Hh' & Hdata & Hfinal).
        { intros t' m' Hin'. by apply Huniq, list_elem_of_further. }
        exists h, data. rewrite <- Hh1. split_and!; [done| |done].
        rewrite Hfs1, lookup_insert_ne in Hdata; done.
Qed.

Lemma loop_inv_finalizable fs0 messages st :
  loop_inv config_ now fs0 messages st → finalizable (filenames st) st.
Proof.
  intros Hinv t m Hin.
  assert (Hget : od_get t (filenames st) = Some m).
  { apply od_elem_get; [apply Hinv | done]. }
  assert (Hrec : records_for t messages ≠ []).
  { rewrite <- (inv_filenames_dom _ _ _ _ _ Hinv). by rewrite Hget. }
  split.
  - apply not_eq_None_Some. by rewrite (inv_headers_dom _ _ _ _ _ Hinv).
  - rewrite (inv_filenames_path _ _ _ _ _ Hinv t m Hget).
    destruct (inv_fs _ _ _ _ _ Hinv (path t)) as (rows & _ & ->).
    destruct (writes_to config_ now (path t) messages) eqn:Hw; [|done].
    exfalso. destruct (records_for t messages) as [|o os] eqn:Hr; [done|].
    assert (Ho : o ∈ records_for t messages) by (rewrite Hr; apply list_elem_of_here).
    apply list_elem_of_omap in Ho as (line & Hline & Hsome).
    assert (o ∈ writes_to config_ now (path t) messages) as Hin'.
    { apply list_elem_of_omap. exists line. split; [done|].
      destruct line as [[]|]; try done. rewrite record_of_stream_Some in Hsome.
      rewrite record_written_to_Some. case_decide; [|done]. simplify_eq.
      by rewrite decide_True. }
    rewrite Hw in Hin'. by apply elem_of_nil in Hin'.
Qed.

Lemma print_metrics_log counters (streams : list string) st :
  let st' := foldl (λ acc t, print_metric counters t acc) st streams in
  log st' = log st ++ map (λ t, (INFO, Metric t (od_get t counters))) streams ∧
  headers st' = headers st ∧ filenames st' = filenames st ∧
  record_counter st' = record_counter st ∧ state st' = state st ∧ fs st' = fs st.
Proof.
  revert st. induction streams as [|t streams IH]; intros st; cbn [foldl map].
  - by rewrite app_nil_r.
  - destruct (IH (print_metric counters t st)) as (-> & -> & -> & -> & -> & ->).
    cbn. by rewrite <- app_assoc.
Qed.

(** A loop that ends normally is followed by a finalizer and a metrics
    pass that cannot fail: [persist_messages] returns. *)
Lemma persist_messages_returns fs0 messages st :
  run_loop config_ now messages (initial fs0) = Continue st →
  ∃ st' fin,
    finalize (filenames st) st = Continue st' ∧
    persist_messages config_ now fs0 messages
    = Returned (state st) (od_values (filenames st)) fin ∧
    fs fin = fs st' ∧ headers fin = headers st ∧ filenames fin = filenames st ∧
    record_counter fin = record_counter st ∧ state fin = state st ∧
    log fin = log st ++ map (λ t, (INFO, Metric t (od_get t (record_counter st))))
                            (od_keys (record_counter st)).
Proof.
  intros Hrun. pose proof (run_loop_inv _ _ _ Hrun) as Hinv.
  destruct (finalize_spec _ _ (loop_inv_finalizable _ _ _ Hinv))
    as (st' & Hfin & Hh & Hf & Hc & Hs & Hl & _).
  unfold persist_messages. rewrite Hrun, Hfin.
  destruct (print_metrics_log (record_counter st') (od_keys (record_counter st')) st')
    as (Hlog & Hh' & Hf' & Hc' & Hs' & Hfs').
  eexists st', _. split; [done|]. split; [by rewrite Hs', Hs, Hf|].
  rewrite Hh', Hf', Hc', Hs', Hfs', Hlog, Hh, Hf, Hc, Hs, Hl. done.
Qed.

Lemma persist_messages_Returned fs0 messages value uploaded fin :
  persist_messages config_ now fs0 messages = Returned value uploaded fin →
  ∃ st, run_loop config_ now messages (initial fs0) = Continue st.
Proof.
  unfold persist_messages.
  destruct (run_loop config_ now messages (initial fs0)); [eauto | done].
Qed.

Lemma persist_messages_Raised fs0 messages e st :
  run_loop config_ now messages (initial fs0) = Abort e st →
  persist_messages config_ now fs0 messages = Raised e st.
Proof. unfold persist_messages. by intros ->. Qed.

(** *** Streams and their staging files *)

Lemma records_for_writes_to s o messages :
  o ∈ records_for s messages → o ∈ writes_to config_ now (path s) messages.
Proof.
  intros (line & Hline & Hsome)%list_elem_of_omap.
  apply list_elem_of_omap. exists line. split; [done|].
  destruct line as [[]|]; try done. rewrite record_of_stream_Some in Hsome.
  rewrite record_written_to_Some. case_decide; [|done]. simplify_eq.
  by rewrite decide_True.
Qed.

Lemma records_for_stream s o messages : o ∈ records_for s messages → rm_stream o = s.
Proof.
  intros (line & _ & Hsome)%list_elem_of_omap.
  destruct line as [[]|]; try done. rewrite record_of_stream_Some in Hsome.
  case_decide; by simplify_eq.
Qed.

Lemma unshared_app s messages1 messages2 :
  staging_file_unshared config_ now s (messages1 ++ messages2) →
  staging_file_unshared config_ now s messages1.
Proof.
  intros Hun o Ho. apply Hun. unfold writes_to. rewrite omap_app, elem_of_app. by left.
Qed.

Lemma unshared_writes s messages :
  staging_file_unshared config_ now s messages →
  writes_to config_ now (path s) messages = records_for s messages.
Proof.
  induction messages as [|line messages IH] using rev_ind; [done|].
  intros Hun. rewrite writes_to_snoc, records_for_snoc, IH by by eapply unshared_app.
  f_equal. destruct line as [[|o| | |]|]; try done.
  rewrite record_of_stream_Some, record_written_to_Some.
  destruct (decide (path (rm_stream o) = path s)) as [Heq|Hne].
  - rewrite decide_True; [done|]. apply Hun.
    rewrite writes_to_snoc, record_written_to_Some, decide_True by done.
    cbn [from_option]. rewrite elem_of_app, list_elem_of_singleton. by right.
  - rewrite decide_False; [done|]. by intros <-.
Qed.

Lemma file_is_empty_default files p :
  file_is_empty files p = true → default [] (files !! p) = [].
Proof. unfold file_is_empty. by destruct (files !! p) as [[|]|]. Qed.

Lemma file_is_empty_lookup files files' p :
  files' !! p = files !! p → file_is_empty files' p = file_is_empty files p.
Proof. unfold file_is_empty. by intros ->. Qed.

(** The headers of a stream whose staging file started empty and is its
    own: the first-seen union of the keys of its records so far. *)
Lemma headers_exact fs0 messages st s :
  file_is_empty fs0 (path s) = true →
  staging_file_unshared config_ now s messages →
  run_loop config_ now messages (initial fs0) = Continue st →
  headers st !! s = match records_for s messages with
                    | [] => None
                    | _ => Some (first_seen (keys_for config_ s messages))
                    end.
Proof.
  intros Hempty. revert st.
  induction messages as [|line messages IH] using rev_ind; intros st Hun.
  - by intros [= <-].
  - intros (st1 & Hrun & Hstep)%run_loop_snoc.
    pose proof (run_loop_inv _ _ _ Hrun) as Hinv.
    specialize (IH st1 (unshared_app _ _ _ Hun) Hrun).
    rewrite records_for_snoc, keys_for_snoc.
    destruct (record_of_stream s line) as [o|] eqn:Hline; cbn [from_option].
    + destruct line as [[|o'| | |]|]; try done.
      rewrite record_of_stream_Some in Hline. case_decide as Hs; [|done].
      simplify_eq. cbn [step] in Hstep.
      apply on_record_Continue in Hstep as (_ & _ & ->).
      cbn [headers write_record]. rewrite lookup_insert_eq.
      rewrite (filenames_entry_path st1 o (inv_filenames_path _ _ _ _ _ Hinv)).
      destruct (reconcile_first_seen st1 (rm_stream o) (path (rm_stream o))
                  (flatten_record (record_to_load config_ o)))
        as (existing & -> & Hsome & Hnone).
      destruct (records_for (rm_stream o) messages) as [|o1 os] eqn:Hrecs.
      * rewrite Hnone.
        -- unfold keys_for at 1. by rewrite Hrecs.
        -- done.
        -- rewrite <- Hempty. apply file_is_empty_lookup.
           destruct (inv_fs _ _ _ _ _ Hinv (path (rm_stream o))) as (rows & _ & ->).
           by rewrite (unshared_writes _ _ (unshared_app _ _ _ Hun)), Hrecs.
      * rewrite (Hsome _ IH). cbn [app]. by rewrite first_seen_absorb.
    + rewrite !app_nil_r, <- IH.
      destruct line as [[o|o|value|stream version|type]|raw]; cbn [step] in Hstep;
        try (by simplify_eq).
      apply on_record_Continue in Hstep as (_ & _ & ->).
      cbn [headers write_record]. apply lookup_insert_ne.
      rewrite record_of_stream_Some in Hline. by case_decide.
Qed.

End LoopFacts.

(** ** Runs as a whole *)

Section RunFacts.

Context `{Externals}.

Variable config_ : config.
Variable now : string.

Local Abbreviation path := (staging_filename config_ now).

Implicit Types (st : loop_state) (o : record_message) (line : input_line)
  (messages : list input_line) (s p : string).

Lemma records_for_nonempty_writes s messages :
  records_for s messages ≠ [] → writes_to config_ now (path s) messages ≠ [].
Proof.
  destruct (records_for s messages) as [|o os] eqn:Hr; [done|]. intros _ Hw.
  assert (Ho : o ∈ records_for s messages) by (rewrite Hr; apply list_elem_of_here).
  apply (records_for_writes_to config_ now) in Ho. rewrite Hw in Ho.
  by apply elem_of_nil in Ho.
Qed.

(** The file the finalizer leaves for a stream that has its staging file to
    itself: one header line, joined with commas, then the staged rows. *)
Lemma finalized_file fs0 messages st s m :
  run_loop config_ now messages (initial fs0) = Continue st →
  staging_file_unshared config_ now s messages →
  od_get s (filenames st) = Some m →
  ∃ fin h data,
    persist_messages config_ now fs0 messages
    = Returned (state st) (od_values (filenames st)) fin ∧
    fe_filename m = path s ∧
    headers st !! s = Some h ∧
    fs st !! path s = Some data ∧
    fs fin !! path s = Some (String.concat "," h :: data).
Proof.
  intros Hrun Hun Hget. pose proof (run_loop_inv _ _ _ _ _ Hrun) as Hinv.
  destruct (persist_messages_returns _ _ _ _ _ Hrun)
    as (st' & fin & Hfin & Hret & Hfs & _).
  destruct (finalize_spec _ _ (loop_inv_finalizable _ _ _ _ _ Hinv))
    as (st'' & Hfin' & _ & _ & _ & _ & _ & _ & Hone).
  rewrite Hfin in Hfin'. injection Hfin' as <-.
  pose proof (inv_filenames_path _ _ _ _ _ Hinv s m Hget) as Hpath.
  destruct (Hone s m) as (h & data & Hh & Hdata & Hfinal).
  { by apply od_get_Some_elem. }
  { apply Hinv. }
  { intros t' m' Hin' Heq.
    assert (Hget' : od_get t' (filenames st) = Some m').
    { apply od_elem_get; [apply Hinv | done]. }
    pose proof (inv_filenames_path _ _ _ _ _ Hinv t' m' Hget') as Hpath'.
    assert (Hrec : records_for t' messages ≠ []).
    { rewrite <- (inv_filenames_dom _ _ _ _ _ Hinv). by rewrite Hget'. }
    destruct (records_for t' messages) as [|o os] eqn:Hr; [done|].
    assert (Ho : o ∈ records_for t' messages) by (rewrite Hr; apply list_elem_of_here).
    rewrite <- (records_for_stream _ _ _ Ho). apply Hun.
    rewrite <- Hpath, <- Heq, Hpath'. by apply records_for_writes_to. }
  exists fin, h, data. rewrite Hfs, <- Hpath. done.
Qed.

(** One step of the loop never shortens a header set, provided header sets
    are duplicate-free, which the step preserves. *)
Lemma step_headers_grow line st :
  (∀ s h, headers st !! s = Some h → NoDup h) →
  let st' := end_state (step config_ now line st) in
  (∀ s h, headers st' !! s = Some h → NoDup h) ∧
  (∀ s h, headers st !! s = Some h →
     ∃ h', headers st' !! s = Some h' ∧ h `prefix_of` h').
Proof.
  intros HND.
  assert (Hsame : ∀ st', headers st' = headers st →
    (∀ s h, headers st' !! s = Some h → NoDup h) ∧
    (∀ s h, headers st !! s = Some h →
       ∃ h', headers st' !! s = Some h' ∧ h `prefix_of` h')).
  { intros st' ->. split; [done|]. intros s h Hh. by exists h. }
  destruct line as [[sm|o|value|stream version|type]|raw]; cbn [step end_state];
    try (by apply Hsame).
  unfold on_record. destruct (schemas st !! rm_stream o); [|by apply Hsame].
  destruct (is_invalid_operation _); [by apply Hsame|].
  cbn [end_state headers write_record]. split.
  - intros s h. rewrite lookup_insert.
    case_decide; [intros [= <-]; apply reconcile_NoDup | apply HND].
  - intros s h Hh. rewrite lookup_insert. case_decide as Heq; [|by exists h].
    subst s. eexists. split; [done|].
    destruct (reconcile_first_seen config_ st (rm_stream o)
                (fe_filename (filenames_entry config_ now st o))
                (flatten_record (record_to_load config_ o)))
      as (existing & -> & Hsome & _).
    rewrite (Hsome _ Hh). apply first_seen_prefix. by eapply HND.
Qed.

Lemma run_loop_headers_grow messages st :
  (∀ s h, headers st !! s = Some h → NoDup h) →
  ∀ s h, headers st !! s = Some h →
    ∃ h', headers (end_state (run_loop config_ now messages st)) !! s = Some h'
          ∧ h `prefix_of` h'.
Proof.
  revert st. induction messages as [|line rest IH]; intros st HND s h Hh.
  - by exists h.
  - destruct (step_headers_grow line st HND) as [HND' Hgrow].
    destruct (Hgrow s h Hh) as (h1 & Hh1 & Hpre).
    cbn [run_loop]. destruct (step config_ now line st) as [st1|e st1];
      cbn [end_state] in *.
    + destruct (IH st1 HND' s h1 Hh1) as (h' & Hh' & Hpre').
      exists h'. split; [done|]. by etrans.
    + by exists h1.
Qed.

Lemma emit_state_stdout value (lines : list string) (entries : list log_entry) :
  (emit_state value (lines, entries)).1
  = lines ++ match value with JNull => [] | _ => [json_dumps value] end.
Proof. destruct value; cbn; by rewrite ?app_nil_r. Qed.

End RunFacts.

(** * The claims of the specification *)

Section Claims.

Context `{Externals}.

Variable config_ : config.
Variable now : string.

Local Abbreviation path := (staging_filename config_ now).

Implicit Types (st : loop_state) (o : record_message) (line : input_line)
  (messages : list input_line) (s p : string).

(** C1.  For a stream whose staging file is empty or absent when the run
    starts (and is the staging file of no other stream of the input), the
    header set at the end of the message loop is the first-seen union of
    the flattened keys of the stream's records: it equals [first_seen] of
    their concatenation, has no duplicate, and holds exactly the keys that
    occur in some record of the stream. *)
Theorem final_headers_first_seen_union fs0 messages st s :
  file_is_empty fs0 (path s) = true →
  staging_file_unshared config_ now s messages →
  run_loop config_ now messages (initial fs0) = Continue st →
  default [] (headers st !! s) = first_seen (keys_for config_ s messages) ∧
  NoDup (default [] (headers st !! s)) ∧
  ∀ k, k ∈ default [] (headers st !! s) ↔
       ∃ o, o ∈ records_for s messages ∧ k ∈ od_keys (flattened config_ o).
Proof.
  intros Hempty Hun Hrun.
  assert (Heq : default [] (headers st !! s) = first_seen (keys_for config_ s messages)).
  { rewrite (headers_exact _ _ _ _ _ _ Hempty Hun Hrun). unfold keys_for.
    by destruct (records_for s messages). }
  rewrite Heq. split_and!; [done | apply first_seen_NoDup |].
  intros k. rewrite first_seen_elem. unfold keys_for.
  rewrite list_elem_of_In, in_concat. split.
  - intros (keys & Hkeys & Hk). apply in_map_iff in Hkeys as (o & <- & Ho).
    exists o. split; by apply list_elem_of_In.
  - intros (o & Ho & Hk). exists (od_keys (flattened config_ o)).
    split; [|by apply list_elem_of_In].
    apply in_map_iff. exists o. split; [done | by apply list_elem_of_In].
Qed.

(** C3.  When a RECORD message comes while no SCHEMA message for its stream
    has been seen, the run ends with an exception and writes no state line;
    if the messages before it were processed normally the exception is the
    missing-schema one, raised in the very state those messages left: no
    later message is processed, nothing is finalized, uploaded or counted. *)
Theorem record_before_schema_aborts fs0 pre o post :
  (∀ sm, Decoded (SCHEMA sm) ∈ pre → sm_stream sm ≠ rm_stream o) →
  (∃ e, raised (main config_ now fs0 (pre ++ Decoded (RECORD o) :: post)) = Some e) ∧
  stdout (main config_ now fs0 (pre ++ Decoded (RECORD o) :: post)) = [] ∧
  ∀ st, run_loop config_ now pre (initial fs0) = Continue st →
    persist_messages config_ now fs0 (pre ++ Decoded (RECORD o) :: post)
    = Raised (SchemaMissing (rm_stream o)) st ∧
    raised (main config_ now fs0 (pre ++ Decoded (RECORD o) :: post))
    = Some (SchemaMissing (rm_stream o)) ∧
    final_fs (main config_ now fs0 (pre ++ Decoded (RECORD o) :: post)) = fs st ∧
    final_log (main config_ now fs0 (pre ++ Decoded (RECORD o) :: post)) = log st.
Proof.
  intros Hnone.
  assert (Hloop : ∃ e st, run_loop config_ now (pre ++ Decoded (RECORD o) :: post)
                            (initial fs0) = Abort e st ∧
            ∀ st1, run_loop config_ now pre (initial fs0) = Continue st1 →
                   e = SchemaMissing (rm_stream o) ∧ st = st1).
  { rewrite run_loop_app.
    destruct (run_loop config_ now pre (initial fs0)) as [st1|e st1] eqn:Hpre.
    - pose proof (run_loop_inv _ _ _ _ _ Hpre) as Hinv.
      cbn [run_loop step]. unfold on_record.
      destruct (schemas st1 !! rm_stream o) as [schema|] eqn:Hschema.
      + destruct (inv_schemas _ _ _ _ _ Hinv (rm_stream o)) as (sm & Hin & Hsm); [eauto|].
        by destruct (Hnone sm Hin).
      + exists (SchemaMissing (rm_stream o)), st1. split; [done|].
        by intros ? [= <-].
    - exists e, st1. split; [done|]. by intros ? [=]. }
  destruct Hloop as (e & st & Hrun & Hexact).
  unfold main. rewrite (persist_messages_Raised _ _ _ _ _ _ Hrun). cbn.
  split_and!; [by exists e | done |].
  intros st1 Hpre. by destruct (Hexact st1 Hpre) as [-> ->].
Qed.

(** C4, as the code has it.  A record whose validation raises an exception
    of a class other than [InvalidOperation] is persisted like any other
    record, and nothing is logged: the step leaves the log as it was,
    appends one row to the staging file and increments the counter of the
    stream.  An [InvalidOperation] is logged as an error and re-raised: the
    run ends there. *)
Theorem validation_errors_silent_unless_precision st o type_name :
  is_Some (schemas st !! rm_stream o) →
  validate_record st o = Raises type_name →
  (type_name ≠ "InvalidOperation" →
     ∃ st' row,
       step config_ now (Decoded (RECORD o)) st = Continue st' ∧
       log st' = log st ∧
       fs st' !! fe_filename (filenames_entry config_ now st o)
       = Some (default [] (fs st !! fe_filename (filenames_entry config_ now st o))
               ++ [row]) ∧
       od_get (rm_stream o) (record_counter st')
       = Some (S (default 0 (od_get (rm_stream o) (record_counter st))))) ∧
  (type_name = "InvalidOperation" →
     ∀ fs0 pre post,
       run_loop config_ now pre (initial fs0) = Continue st →
       persist_messages config_ now fs0 (pre ++ Decoded (RECORD o) :: post)
       = Raised (Reraised "InvalidOperation")
                (logging (ERROR, PrecisionNotSupported) st) ∧
       stdout (main config_ now fs0 (pre ++ Decoded (RECORD o) :: post)) = []).
Proof.
  intros [schema Hschema] Hval. split.
  - intros Hne. eexists _, _. cbn [step]. unfold on_record.
    rewrite Hschema, Hval. cbn [is_invalid_operation].
    destruct (String.eqb_spec type_name "InvalidOperation"); [done|].
    split; [done|]. cbn [log fs record_counter write_record].
    split_and!; [done | apply lookup_insert_eq | apply od_get_set_eq].
  - intros -> fs0 pre post Hpre.
    assert (Hrun : run_loop config_ now (pre ++ Decoded (RECORD o) :: post) (initial fs0)
                   = Abort (Reraised "InvalidOperation")
                           (logging (ERROR, PrecisionNotSupported) st)).
    { rewrite run_loop_app, Hpre. cbn [run_loop step]. unfold on_record.
      by rewrite Hschema, Hval. }
    unfold main. by rewrite (persist_messages_Raised _ _ _ _ _ _ Hrun).
Qed.

(** C5.  When the input holds a STATE message and the message loop ends
    normally, [persist_messages] returns the value of the last STATE message
    in arrival order, and [main] writes exactly that value to standard
    output, unless it is null, in which case it writes nothing. *)
Theorem returned_state_is_last_state fs0 messages st value :
  last (state_values messages) = Some value →
  run_loop config_ now messages (initial fs0) = Continue st →
  (∃ uploaded fin,
     persist_messages config_ now fs0 messages = Returned value uploaded fin) ∧
  raised (main config_ now fs0 messages) = None ∧
  stdout (main config_ now fs0 messages)
  = match value with JNull => [] | _ => [json_dumps value] end.
Proof.
  intros Hlast Hrun. pose proof (run_loop_inv _ _ _ _ _ Hrun) as Hinv.
  destruct (persist_messages_returns _ _ _ _ _ Hrun) as (st' & fin & _ & Hret & _).
  rewrite (inv_state _ _ _ _ _ Hinv), Hlast in Hret. cbn [default] in Hret.
  unfold main. rewrite Hret. split; [eauto|]. by destruct value.
Qed.


(** C6.  Header reconciliation is idempotent.  In a state the loop can
    reach, a record whose flattened keys all belong to the header set of its
    stream leaves the header sets as they are, and that header set has no
    duplicate; and in any state, a record reconciled a second time leaves
    the header sets as the first time left them. *)
Theorem header_reconcile_idempotent fs0 messages st o h :
  run_loop config_ now messages (initial fs0) = Continue st →
  headers st !! rm_stream o = Some h →
  (∀ k, k ∈ od_keys (flattened config_ o) → k ∈ h) →
  headers (write_record config_ now o st) = headers st ∧
  NoDup h ∧
  ∀ st0, headers (write_record config_ now o (write_record config_ now o st0))
         = headers (write_record config_ now o st0).
Proof.
  intros Hrun Hh Hsub. pose proof (run_loop_inv _ _ _ _ _ Hrun) as Hinv.
  pose proof (inv_headers_NoDup _ _ _ _ _ Hinv _ _ Hh) as HND.
  split_and!; [|done|].
  - cbn [headers write_record]. apply insert_id. rewrite Hh. f_equal.
    destruct (reconcile_first_seen config_ st (rm_stream o)
                (fe_filename (filenames_entry config_ now st o))
                (flatten_record (record_to_load config_ o)))
      as (existing & -> & Hsome & _).
    rewrite (Hsome _ Hh). symmetry. by apply first_seen_included.
  - intros st0. cbn [headers write_record]. rewrite insert_insert_eq. f_equal.
    set (st1 := write_record config_ now o st0).
    set (keys := flatten_record (record_to_load config_ o)).
    destruct (reconcile_first_seen config_ st0 (rm_stream o)
                (fe_filename (filenames_entry config_ now st0 o)) keys)
      as (existing0 & Hfirst & _).
    destruct (reconcile_first_seen config_ st1 (rm_stream o)
                (fe_filename (filenames_entry config_ now st1 o)) keys)
      as (existing1 & -> & Hsome & _).
    assert (Hex : existing1 = reconcile config_ st0 (rm_stream o)
                    (fe_filename (filenames_entry config_ now st0 o)) keys).
    { apply Hsome. subst st1. cbn [headers write_record]. apply lookup_insert_eq. }
    rewrite Hex, Hfirst.
    apply first_seen_included; [apply first_seen_NoDup|].
    intros k Hk. rewrite first_seen_elem, elem_of_app. by right.
Qed.

(** C7.  Header sets never shrink.  Whatever messages follow a state the
    loop has reached, the header set a stream had there is a prefix of the
    one it has afterwards, also when the run is cut short by an exception;
    and a SCHEMA message leaves every header set as it is. *)
Theorem headers_never_shrink fs0 pre post st s h :
  run_loop config_ now pre (initial fs0) = Continue st →
  headers st !! s = Some h →
  (∃ h', headers (end_state (run_loop config_ now post st)) !! s = Some h'
         ∧ h `prefix_of` h') ∧
  ∀ sm, headers (on_schema config_ sm st) !! s = Some h.
Proof.
  intros Hrun Hh. pose proof (run_loop_inv _ _ _ _ _ Hrun) as Hinv.
  split; [|done].
  apply run_loop_headers_grow; [apply Hinv | done].
Qed.

(** C8, as the code has it.  For a stream whose staging file is empty or
    absent when the run starts and is the staging file of no other stream of
    the input, [persist_messages] returns and the finalized file of the
    stream has, after its header line, as many rows as the stream had RECORD
    messages, which is also the value of its record counter and of the
    metric reported for it. *)
Theorem row_count_fresh_staging_file fs0 messages st s :
  file_is_empty fs0 (path s) = true →
  staging_file_unshared config_ now s messages →
  run_loop config_ now messages (initial fs0) = Continue st →
  (∃ value uploaded fin,
     persist_messages config_ now fs0 messages = Returned value uploaded fin) ∧
  row_count_matches config_ now fs0 messages s.
Proof.
  intros Hempty Hun Hrun. pose proof (run_loop_inv _ _ _ _ _ Hrun) as Hinv.
  destruct (persist_messages_returns _ _ _ _ _ Hrun)
    as (st' & fin & _ & Hret & _ & _ & Hf & Hc & _ & Hlog).
  split; [eauto|].
  intros value uploaded fin' m Hret' Hget.
  rewrite Hret in Hret'. injection Hret' as <- <- <-. rewrite Hf in Hget.
  destruct (finalized_file _ _ _ _ _ _ _ Hrun Hun Hget)
    as (fin' & h & data & Hret' & Hpath & _ & Hdata & Hfinal).
  rewrite Hret in Hret'. injection Hret' as <-.
  destruct (inv_fs _ _ _ _ _ Hinv (path s)) as (rows & Hlen & Hfs).
  rewrite (unshared_writes _ _ _ _ Hun) in Hlen, Hfs.
  assert (Hrec : records_for s messages ≠ []).
  { rewrite <- (inv_filenames_dom _ _ _ _ _ Hinv). by rewrite Hget. }
  assert (Hrows : data = rows).
  { destruct (records_for s messages); [done|].
    rewrite Hfs, (file_is_empty_default _ _ Hempty) in Hdata. by simplify_eq. }
  subst data. exists (String.concat "," h), rows. rewrite Hpath, Hc, Hlen.
  assert (Hcount : od_get s (record_counter st)
                   = Some (length (records_for s messages))).
  { rewrite (inv_counter _ _ _ _ _ Hinv).
    destruct (records_for s messages); [done|]. done. }
  split_and!; [done..|].
  rewrite Hlog, elem_of_app. right. rewrite <- Hcount.
  apply list_elem_of_In, in_map_iff. exists s. split; [done|].
  apply list_elem_of_In, od_get_is_Some. by rewrite Hcount.
Qed.

(** C9.  At most one line is ever written to standard output; none is
    written when the last STATE message carries null or when there is no
    STATE message; and a line that is written is the last STATE value, not
    null, of a run that ended normally. *)
Theorem null_state_not_emitted fs0 messages :
  (length (stdout (main config_ now fs0 messages)) ≤ 1)%nat ∧
  (default JNull (last (state_values messages)) = JNull →
   stdout (main config_ now fs0 messages) = []) ∧
  ∀ text, text ∈ stdout (main config_ now fs0 messages) →
    raised (main config_ now fs0 messages) = None ∧
    ∃ value, value ≠ JNull ∧ last (state_values messages) = Some value ∧
             text = json_dumps value.
Proof.
  unfold main.
  destruct (persist_messages config_ now fs0 messages) as [value uploaded fin|e fin]
    eqn:Hret.
  - destruct (persist_messages_Returned _ _ _ _ _ _ _ Hret) as [st Hrun].
    pose proof (run_loop_inv _ _ _ _ _ Hrun) as Hinv.
    destruct (persist_messages_returns _ _ _ _ _ Hrun) as (? & ? & _ & Hret' & _).
    rewrite Hret in Hret'. injection Hret' as -> _ _.
    rewrite (inv_state _ _ _ _ _ Hinv).
    cbn [stdout raised]. rewrite emit_state_stdout. cbn [app].
    destruct (last (state_values messages)) as [value|]; cbn [from_option id].
    + destruct value;
        try (split_and!; [cbn; lia | by intros [=] |];
             intros text ->%list_elem_of_singleton; split; [done|];
             refine (ex_intro _ _ (conj _ (conj eq_refl eq_refl))); done).
      split_and!; [cbn; lia | done | by intros ? []%elem_of_nil].
    + split_and!; [cbn; lia | done | by intros ? []%elem_of_nil].
  - cbn. split_and!; [lia | done | by intros ? []%elem_of_nil].
Qed.

(** C10.  A stream without RECORD messages gets no entry in [filenames],
    [headers] or [record_counter]; the run returns, every file handed to the
    upload belongs to another stream, one that has records, no metric is
    reported for the stream, and a file that is the staging file of no
    stream with records is left as it was found.  A SCHEMA message changes
    the schema, validator and key-property registries only. *)
Theorem stream_without_records_untouched fs0 messages st s :
  records_for s messages = [] →
  run_loop config_ now messages (initial fs0) = Continue st →
  (od_get s (filenames st) = None ∧ headers st !! s = None ∧
   od_get s (record_counter st) = None) ∧
  (∃ fin,
     persist_messages config_ now fs0 messages
     = Returned (state st) (od_values (filenames st)) fin ∧
     od_get s (filenames fin) = None ∧
     (∀ value, (INFO, Metric s value) ∉ log fin) ∧
     (∀ entry, entry ∈ od_values (filenames st) →
        ∃ t, t ≠ s ∧ records_for t messages ≠ [] ∧
             od_get t (filenames st) = Some entry) ∧
     (∀ p, writes_to config_ now p messages = [] → fs fin !! p = fs0 !! p)) ∧
  ∀ sm st0,
    headers (on_schema config_ sm st0) = headers st0 ∧
    filenames (on_schema config_ sm st0) = filenames st0 ∧
    record_counter (on_schema config_ sm st0) = record_counter st0 ∧
    fs (on_schema config_ sm st0) = fs st0 ∧
    log (on_schema config_ sm st0) = log st0 ∧
    state (on_schema config_ sm st0) = state st0.
Proof.
  intros Hnone Hrun. pose proof (run_loop_inv _ _ _ _ _ Hrun) as Hinv.
  assert (Hf : od_get s (filenames st) = None)
    by by apply (inv_filenames_dom _ _ _ _ _ Hinv).
  assert (Hc : od_get s (record_counter st) = None)
    by by rewrite (inv_counter _ _ _ _ _ Hinv), Hnone.
  split_and!; [done | by apply (inv_headers_dom _ _ _ _ _ Hinv) | done | | done].
  destruct (persist_messages_returns _ _ _ _ _ Hrun)
    as (st' & fin & Hfin & Hret & Hfs & _ & Hf' & _ & _ & Hlog).
  exists fin. split_and!; [done | by rewrite Hf' | | |].
  - intros value. rewrite Hlog, elem_of_app. intros [Hin|Hin].
    + by destruct (inv_log _ _ _ _ _ Hinv _ Hin).
    + apply list_elem_of_In, in_map_iff in Hin as (t & [= -> _] & Hin).
      apply list_elem_of_In, od_get_is_Some in Hin. rewrite Hc in Hin.
      by destruct Hin.
  - intros entry (item & -> & Hin)%list_elem_of_fmap. destruct item as [t m].
    assert (Hget : od_get t (filenames st) = Some m).
    { apply od_elem_get; [apply Hinv | done]. }
    exists t. split_and!; [congruence | | done].
    rewrite <- (inv_filenames_dom _ _ _ _ _ Hinv). by rewrite Hget.
  - intros p Hw.
    destruct (finalize_spec _ _ (loop_inv_finalizable _ _ _ _ _ Hinv))
      as (st'' & Hfin' & _ & _ & _ & _ & _ & Hframe & _).
    rewrite Hfin in Hfin'. injection Hfin' as <-. rewrite Hfs, Hframe.
    + destruct (inv_fs _ _ _ _ _ Hinv p) as (rows & _ & ->). by rewrite Hw.
    + intros t m Hin Hp.
      assert (Hget : od_get t (filenames st) = Some m).
      { apply od_elem_get; [apply Hinv | done]. }
      rewrite (inv_filenames_path _ _ _ _ _ Hinv t m Hget) in Hp. subst p.
      apply (records_for_nonempty_writes config_ now t messages); [|done].
      rewrite <- (inv_filenames_dom _ _ _ _ _ Hinv). by rewrite Hget.
Qed.

End Claims.

(** * Further properties of the code *)

Section FurtherFacts.

Context `{Externals}.

Variable config_ : config.
Variable now : string.

Local Abbreviation path := (staging_filename config_ now).

Implicit Types (st : loop_state) (o : record_message) (line : input_line)
  (messages : list input_line) (s p : string).

(** *** Where and how a run stops *)




(** *** The registries of schemas, validators and key properties *)




(** *** Insertion order of the dictionaries the code iterates over *)

Lemma first_seen_foldl (l : list string) : first_seen l = foldl add_key [] l.
Proof.
  rewrite foldl_add_key. cbn [app]. f_equal. symmetry.
  apply filter_all. intros x _. apply not_elem_of_nil.
Qed.

Lemma first_seen_snoc (l : list string) (x : string) :
  first_seen (l ++ [x]) = add_key (first_seen l) x.
Proof. by rewrite !first_seen_foldl, foldl_app. Qed.

Lemma od_values_lookup {V} (d : odict V) :
  NoDup (od_keys d) → od_values d = omap (λ k, od_get k d) (od_keys d).
Proof.
  induction d as [|[k v] d IH]; [done|].
  cbn [od_keys od_values fmap list_fmap fst snd omap list_omap od_get].
  intros [Hnin Hnd]%NoDup_cons. rewrite String.eqb_refl. f_equal.
  unfold od_keys, od_values in IH. rewrite IH by done.
  clear IH Hnd. induction (fst <$> d) as [|k' ks IHks]; [done|].
  apply not_elem_of_cons in Hnin as [Hne Hnin]. cbn [omap list_omap].
  destruct (String.eqb_spec k' k) as [->|_]; [done|]. by rewrite IHks.
Qed.

Lemma record_streams_snoc messages line :
  record_streams (messages ++ [line])
  = record_streams messages ++ from_option (λ t, [t]) [] (record_stream line).
Proof. unfold record_streams. by rewrite omap_app. Qed.

Lemma record_streams_elem s messages :
  s ∈ record_streams messages ↔ records_for s messages ≠ [].
Proof.
  unfold record_streams, records_for. split.
  - intros (line & Hline & Hs)%list_elem_of_omap Hnil.
    destruct line as [[|o| | |]|]; try done. injection Hs as <-.
    assert (Ho : o ∈ omap (record_of_stream (rm_stream o)) messages).
    { apply list_elem_of_omap. exists (Decoded (RECORD o)).
      split; [done|]. cbn. by rewrite String.eqb_refl. }
    rewrite Hnil in Ho. by apply elem_of_nil in Ho.
  - destruct (omap (record_of_stream s) messages) as [|o os] eqn:Hr; [done|].
    intros _. assert (Ho : o ∈ omap (record_of_stream s) messages).
    { rewrite Hr. apply list_elem_of_here. }
    apply list_elem_of_omap in Ho as (line & Hline & Hs).
    apply list_elem_of_omap. exists line. split; [done|].
    destruct line as [[|o'| | |]|]; try done. cbn in Hs |- *.
    destruct (String.eqb_spec (rm_stream o') s) as [->|]; done.
Qed.

Lemma dictionaries_keys fs0 messages st :
  run_loop config_ now messages (initial fs0) = Continue st →
  od_keys (filenames st) = first_seen (record_streams messages) ∧
  od_keys (record_counter st) = first_seen (record_streams messages).
Proof.
  revert st. induction messages as [|line messages IH] using rev_ind; intros st.
  - by intros [= <-].
  - intros (st1 & Hrun & Hstep)%run_loop_snoc.
    destruct (IH st1 Hrun) as [IHf IHc]. rewrite record_streams_snoc.
    destruct line as [[sm|o|value|stream version|type]|raw]; cbn [step] in Hstep;
      try (injection Hstep as <-); try done;
      cbn [record_stream from_option]; rewrite ?app_nil_r; try done.
    apply on_record_Continue in Hstep as (_ & _ & ->).
    rewrite first_seen_snoc. cbn [filenames record_counter write_record]. split.
    + rewrite <- IHf. unfold add_key.
      destruct (od_get (rm_stream o) (filenames st1)) eqn:Hget.
      * rewrite decide_True; [done|]. apply od_get_is_Some. by rewrite Hget.
      * by rewrite od_keys_set.
    + by rewrite od_keys_set, <- IHc.
Qed.

Lemma filenames_exact fs0 messages st t :
  run_loop config_ now messages (initial fs0) = Continue st →
  od_get t (filenames st) = staged_entry config_ now messages t.
Proof.
  revert st. induction messages as [|line messages IH] using rev_ind; intros st.
  - by intros [= <-].
  - intros (st1 & Hrun & Hstep)%run_loop_snoc. specialize (IH st1 Hrun).
    unfold staged_entry in *. rewrite records_for_snoc.
    destruct (record_of_stream t line) as [o|] eqn:Hline; cbn [from_option].
    + destruct line as [[|o'| | |]|]; try done.
      rewrite record_of_stream_Some in Hline. case_decide as Ht; [|done].
      simplify_eq. cbn [step] in Hstep.
      apply on_record_Continue in Hstep as (_ & _ & ->).
      cbn [filenames write_record]. unfold filenames_entry.
      destruct (records_for (rm_stream o) messages) as [|o1 os]; rewrite IH.
      * by rewrite od_get_set_eq.
      * by rewrite IH.
    + rewrite app_nil_r, <- IH.
      destruct line as [[sm|o|value|stream version|type]|raw]; cbn [step] in Hstep;
        try (by simplify_eq).
      apply on_record_Continue in Hstep as (_ & _ & ->).
      cbn [filenames write_record].
      destruct (od_get (rm_stream o) (filenames st1)); [done|].
      apply od_get_set_ne. rewrite record_of_stream_Some in Hline. by case_decide.
Qed.


(** *** Headers and rows of a stream, whatever its staging file held *)

Lemma staged_rows_snoc (h : list string) (records : list record_message) o :
  staged_rows config_ h (records ++ [o])
  = staged_rows config_ h records
    ++ [row_of config_
          (first_seen (h ++ concat (map (λ o, od_keys (flattened config_ o)) records)
                         ++ od_keys (flattened config_ o))) o].
Proof.
  revert h. induction records as [|o1 rest IH]; intros h; [done|].
  cbn [app staged_rows map concat]. rewrite IH. do 4 f_equal.
  by rewrite first_seen_absorb, <- !app_assoc.
Qed.

Lemma found_header_lookup (files files' : gmap string (list string)) p :
  files' !! p = files !! p →
  found_header config_ files' p = found_header config_ files p.
Proof. unfold found_header, file_is_empty. by intros ->. Qed.

Lemma reconcile_found st s filename (flattened_record : odict json) :
  headers st !! s = None →
  reconcile config_ st s filename flattened_record
  = first_seen (found_header config_ (fs st) filename ++ od_keys flattened_record).
Proof.
  intros Hnone. unfold reconcile, found_header. rewrite Hnone.
  destruct (file_is_empty (fs st) filename); by rewrite merged_keys.
Qed.

Lemma reconcile_known st s filename (flattened_record : odict json) h :
  headers st !! s = Some h →
  reconcile config_ st s filename flattened_record
  = first_seen (h ++ od_keys flattened_record).
Proof. intros Hh. unfold reconcile. rewrite Hh. apply merged_keys. Qed.

Lemma stream_view fs0 messages st s :
  staging_file_unshared config_ now s messages →
  run_loop config_ now messages (initial fs0) = Continue st →
  headers st !! s
  = match records_for s messages with
    | [] => None
    | _ => Some (first_seen (found_header config_ fs0 (path s)
                             ++ keys_for config_ s messages))
    end ∧
  fs st !! path s
  = match records_for s messages with
    | [] => fs0 !! path s
    | records =>
        Some (default [] (fs0 !! path s)
              ++ staged_rows config_ (found_header config_ fs0 (path s)) records)
    end.
Proof.
  revert st. induction messages as [|line messages IH] using rev_ind; intros st Hun.
  - by intros [= <-].
  - intros (st1 & Hrun & Hstep)%run_loop_snoc.
    pose proof (run_loop_inv _ _ _ _ _ Hrun) as Hinv.
    destruct (IH st1 (unshared_app _ _ _ _ _ Hun) Hrun) as [IHh IHf].
    rewrite records_for_snoc, keys_for_snoc.
    destruct (record_of_stream s line) as [o|] eqn:Hline; cbn [from_option].
    + destruct line as [[|o'| | |]|]; try done.
      rewrite record_of_stream_Some in Hline. case_decide as Hs; [|done].
      simplify_eq. cbn [step] in Hstep.
      apply on_record_Continue in Hstep as (_ & _ & ->).
      cbn [headers fs write_record]. rewrite !lookup_insert_eq.
      rewrite (filenames_entry_path _ _ st1 o (inv_filenames_path _ _ _ _ _ Hinv)).
      rewrite lookup_insert_eq.
      destruct (records_for (rm_stream o) messages) as [|o1 os] eqn:Hrecs.
      * rewrite (reconcile_found _ _ _ _ IHh), (found_header_lookup _ _ _ IHf), IHf.
        unfold keys_for. rewrite Hrecs. cbn [map concat app staged_rows]. done.
      * rewrite (reconcile_known _ _ _ _ _ IHh), IHf. cbn [default from_option id].
        rewrite first_seen_absorb, <- !app_assoc. split; [done|].
        cbn [app]. change (o1 :: os ++ [o]) with ((o1 :: os) ++ [o]).
        rewrite staged_rows_snoc. unfold keys_for. rewrite Hrecs.
        by destruct (default [] (fs0 !! path (rm_stream o))).
    + rewrite !app_nil_r, <- IHh, <- IHf.
      destruct line as [[sm|o|value|stream version|type]|raw]; cbn [step] in Hstep;
        try (by simplify_eq).
      apply on_record_Continue in Hstep as (_ & _ & ->).
      cbn [headers fs write_record].
      rewrite (filenames_entry_path _ _ st1 o (inv_filenames_path _ _ _ _ _ Hinv)).
      rewrite record_of_stream_Some in Hline. case_decide as Hne; [done|].
      rewrite !lookup_insert_ne; [done | | done].
      intros Hpath. apply Hne, Hun.
      rewrite writes_to_snoc, record_written_to_Some, decide_True by done.
      cbn [from_option]. rewrite elem_of_app, list_elem_of_singleton. by right.
Qed.


(** *** The log has no influence on a run *)















(** *** Properties *)



(** X3.  When a record is written, every key of its flattened form is a
    column: the header set of its stream after the step has no duplicate
    and contains all the keys, and the row appended to the staging file has
    one cell per header, in header order, holding the record's value for
    that header or the empty string when the record has none. *)
Theorem every_record_key_is_a_column st o :
  ∃ h,
    headers (write_record config_ now o st) !! rm_stream o = Some h ∧
    NoDup h ∧
    (∀ k, k ∈ od_keys (flattened config_ o) → k ∈ h) ∧
    fs (write_record config_ now o st) !! fe_filename (filenames_entry config_ now st o)
    = Some (default [] (fs st !! fe_filename (filenames_entry config_ now st o))
            ++ [row_of config_ h o]) ∧
    length (dict_to_list h (flattened config_ o)) = length h ∧
    ∀ i k, h !! i = Some k →
      dict_to_list h (flattened config_ o) !! i
      = Some (default (JStr "") (od_get k (flattened config_ o))).
Proof.
  eexists. cbn [headers fs write_record]. rewrite !lookup_insert_eq.
  split; [done|]. split; [apply reconcile_NoDup|]. split_and!.
  - destruct (reconcile_first_seen config_ st (rm_stream o)
                (fe_filename (filenames_entry config_ now st o))
                (flatten_record (record_to_load config_ o)))
      as (existing & -> & _).
    intros k Hk. rewrite first_seen_elem, elem_of_app. by right.
  - done.
  - unfold dict_to_list. by rewrite length_map.
  - intros i k Hi. unfold dict_to_list.
    change (map ?f ?l) with (f <$> l). by rewrite list_lookup_fmap, Hi.
Qed.

(** X4.  After a loop that ends normally the run returns, and the metrics
    pass adds to the log exactly one record-count entry per stream that had
    RECORD messages, in the order of the streams' first records, each with
    the number of RECORD messages of its stream (whether or not they passed
    validation); nothing the loop logged before is at that level. *)
Theorem metrics_report_every_stream_once fs0 messages st :
  run_loop config_ now messages (initial fs0) = Continue st →
  ∃ uploaded fin,
    persist_messages config_ now fs0 messages = Returned (state st) uploaded fin ∧
    log fin
    = log st ++ map (λ t, (INFO, Metric t (Some (length (records_for t messages)))))
                    (first_seen (record_streams messages)) ∧
    ∀ entry, entry ∈ log st → entry.1 ≠ INFO.
Proof.
  intros Hrun. pose proof (run_loop_inv _ _ _ _ _ Hrun) as Hinv.
  destruct (persist_messages_returns _ _ _ _ _ Hrun)
    as (st' & fin & _ & Hret & _ & _ & _ & _ & _ & Hlog).
  exists (od_values (filenames st)), fin. split; [done|]. split.
  - rewrite Hlog. f_equal. destruct (dictionaries_keys _ _ _ Hrun) as [_ ->].
    apply map_ext_in. intros t Ht%list_elem_of_In.
    apply first_seen_elem, record_streams_elem in Ht.
    rewrite (inv_counter _ _ _ _ _ Hinv).
    by destruct (records_for t messages).
  - intros entry Hin. by destruct (inv_log _ _ _ _ _ Hinv _ Hin) as [-> | ->].
Qed.

(** X5.  The files handed to the upload are one per stream that had RECORD
    messages, in the order of the streams' first records; the entry of a
    stream names its staging file and the target key computed from the
    first record of the stream. *)
Theorem uploaded_files_in_first_record_order fs0 messages st :
  run_loop config_ now messages (initial fs0) = Continue st →
  ∃ fin,
    persist_messages config_ now fs0 messages
    = Returned (state st)
        (omap (staged_entry config_ now messages) (first_seen (record_streams messages)))
        fin.
Proof.
  intros Hrun. pose proof (run_loop_inv _ _ _ _ _ Hrun) as Hinv.
  destruct (persist_messages_returns _ _ _ _ _ Hrun) as (st' & fin & _ & Hret & _).
  exists fin. rewrite Hret. f_equal.
  rewrite od_values_lookup by apply Hinv.
  destruct (dictionaries_keys _ _ _ Hrun) as [-> _].
  induction (first_seen (record_streams messages)) as [|t ts IH]; [done|].
  cbn [omap list_omap]. by rewrite IH, (filenames_exact _ _ _ t Hrun).
Qed.

(** X6.  The header set of a stream that has its staging file to itself,
    whatever the file held when the run started: the names of the header
    row found in the file (none if the file was absent or empty), then the
    flattened keys of the stream's records, each name once, at its first
    occurrence.  The names found in the file come first. *)
Theorem headers_start_from_found_header fs0 messages st s :
  staging_file_unshared config_ now s messages →
  records_for s messages ≠ [] →
  run_loop config_ now messages (initial fs0) = Continue st →
  headers st !! s
  = Some (first_seen (found_header config_ fs0 (path s) ++ keys_for config_ s messages)) ∧
  first_seen (found_header config_ fs0 (path s))
  `prefix_of` first_seen (found_header config_ fs0 (path s)
                          ++ keys_for config_ s messages).
Proof.
  intros Hun Hrec Hrun. destruct (stream_view _ _ _ _ Hun Hrun) as [-> _].
  split; [by destruct (records_for s messages)|].
  rewrite first_seen_app. by apply prefix_app_r.
Qed.




End FurtherFacts.

(** * The claims on concrete runs *)

Import Sample.

(** The example of the specification, run: header [id,name,email], two data
    rows, the bookmark emitted. *)
Example users_run_result :
  final_fs (main plain_config "T" no_files users_run) !! "/tmp/users-T.csv"
  = Some ["id,name,email"; "1,a"; "2,b,x"] ∧
  stdout (main plain_config "T" no_files users_run) = ["bookmark-2"].
Proof. split; vm_compute; reflexivity. Qed.

(** Two streams can be staged in one file: with a POSIX [os.path.join] an
    absolute stream name discards the temporary directory.  The second
    stream then reads the row of the first as its header row. *)
Example streams_can_share_a_staging_file :
  staging_filename plain_config "T" "/tmp/users"
  = staging_filename plain_config "T" "users" ∧
  headers (reached plain_config
             [ schema_of "users" (JObj []);
               schema_of "/tmp/users" (JObj []);
               record_of "users" [("id", JNum 1); ("name", JStr "a")];
               record_of "/tmp/users" [("id", JNum 2)] ]) !! "/tmp/users"
  = Some ["1"; "a"; "id"].
Proof. split; vm_compute; reflexivity. Qed.

Local Ltac by_evaluation := vm_compute; reflexivity.

Local Ltac by_membership := vm_compute; repeat constructor.

Local Ltac each_member :=
  let x := fresh in let Hx := fresh in
  intros x Hx; vm_compute in Hx;
  repeat (apply elem_of_cons in Hx as [Hx|Hx];
          [try (simplify_eq; vm_compute; first [reflexivity | discriminate])|]);
  try (by apply elem_of_nil in Hx).

Lemma final_headers_first_seen_union_witness :
  default [] (headers (reached plain_config users_run) !! "users")
  = first_seen (keys_for plain_config "users" users_run) ∧
  NoDup (default [] (headers (reached plain_config users_run) !! "users")) ∧
  ∀ k, k ∈ default [] (headers (reached plain_config users_run) !! "users") ↔
       ∃ o, o ∈ records_for "users" users_run ∧ k ∈ od_keys (flattened plain_config o).
Proof.
  apply (final_headers_first_seen_union plain_config "T" no_files users_run
           (reached plain_config users_run) "users").
  - by_evaluation.
  - each_member.
  - by_evaluation.
Defined.

(** C2: the run that shows the defect.  With [delimiter] set to a
    semicolon the rows are written with semicolons and the header line with
    a comma; the specification wants the header [id;name]. *)
Theorem finalizer_header_ignores_delimiter :
  ∃ value uploaded fin,
    persist_messages semicolon_config "T" no_files users_schema_and_first_record
    = Returned value uploaded fin ∧
    delimiter semicolon_config = ";" ∧
    headers fin !! "users" = Some ["id"; "name"] ∧
    fs fin !! staging_filename semicolon_config "T" "users" = Some ["id,name"; "1;a"] ∧
    String.concat (delimiter semicolon_config) ["id"; "name"] = "id;name" ∧
    "id,name" ≠ "id;name".
Proof.
  destruct (persist_messages semicolon_config "T" no_files users_schema_and_first_record)
    as [value uploaded fin|e fin] eqn:Hrun; [|by vm_compute in Hrun].
  exists value, uploaded, fin. split; [done|].
  vm_compute in Hrun. injection Hrun as <- <- <-.
  split_and!; [by_evaluation.. | done].
Qed.

Lemma record_before_schema_aborts_witness :
  persist_messages plain_config "T" no_files
    ([schema_of "orders" (JObj []); Decoded (STATE (JStr "bookmark-1"))]
     ++ Decoded (RECORD third_user) :: users_run)
  = Raised (SchemaMissing "users")
      (reached plain_config
         [schema_of "orders" (JObj []); Decoded (STATE (JStr "bookmark-1"))]) ∧
  stdout (main plain_config "T" no_files
    ([schema_of "orders" (JObj []); Decoded (STATE (JStr "bookmark-1"))]
     ++ Decoded (RECORD third_user) :: users_run)) = [].
Proof.
  destruct (record_before_schema_aborts plain_config "T" no_files
              [schema_of "orders" (JObj []); Decoded (STATE (JStr "bookmark-1"))]
              third_user users_run) as (_ & Hout & Hexact).
  - each_member.
  - split; [|exact Hout]. apply Hexact. by_evaluation.
Defined.

(** C4: a record that fails validation against the schema [false].  The
    step goes on, the row is written and the counter is 1, and the log is
    what it was: nothing has been logged, where the specification has the
    error logged. *)
Lemma advisory_validation_error_not_logged :
  validate_record (reached plain_config [schema_of "users" (JBool false)]) third_user
  = Raises "ValidationError" ∧
  (∃ st',
     step plain_config "T" (Decoded (RECORD third_user))
       (reached plain_config [schema_of "users" (JBool false)]) = Continue st' ∧
     log st' = log (reached plain_config [schema_of "users" (JBool false)]) ∧
     fs st' !! "/tmp/users-T.csv" = Some ["c,3"] ∧
     od_get "users" (record_counter st') = Some 1) ∧
  ¬ advisory_error_logged_and_persisted plain_config "T"
      (reached plain_config [schema_of "users" (JBool false)]) third_user.
Proof.
  split; [by_evaluation|]. split.
  - eexists. split; [by_evaluation|]. split_and!; by_evaluation.
  - intros (st' & Hstep & Hlog & _). vm_compute in Hstep.
    injection Hstep as <-. vm_compute in Hlog. lia.
Qed.

Lemma validation_errors_silent_unless_precision_witness :
  ∃ st' row,
    step plain_config "T" (Decoded (RECORD third_user))
      (reached plain_config [schema_of "users" (JBool false)]) = Continue st' ∧
    log st' = log (reached plain_config [schema_of "users" (JBool false)]) ∧
    fs st' !! "/tmp/users-T.csv" = Some ([] ++ [row]) ∧
    od_get "users" (record_counter st') = Some 1.
Proof.
  destruct (validation_errors_silent_unless_precision plain_config "T"
              (reached plain_config [schema_of "users" (JBool false)])
              third_user "ValidationError") as [Hadvisory _].
  - eexists. by_evaluation.
  - by_evaluation.
  - apply Hadvisory. discriminate.
Defined.

Lemma returned_state_is_last_state_witness :
  (∃ uploaded fin,
     persist_messages plain_config "T" no_files users_run
     = Returned (JStr "bookmark-2") uploaded fin) ∧
  raised (main plain_config "T" no_files users_run) = None ∧
  stdout (main plain_config "T" no_files users_run) = [json_dumps (JStr "bookmark-2")].
Proof.
  apply (returned_state_is_last_state plain_config "T" no_files users_run
           (reached plain_config users_run) (JStr "bookmark-2")); by_evaluation.
Defined.

Lemma header_reconcile_idempotent_witness :
  headers (write_record plain_config "T" third_user
             (reached plain_config users_schema_and_first_record))
  = headers (reached plain_config users_schema_and_first_record) ∧
  NoDup ["id"; "name"] ∧
  ∀ st0, headers (write_record plain_config "T" third_user
                    (write_record plain_config "T" third_user st0))
         = headers (write_record plain_config "T" third_user st0).
Proof.
  apply (header_reconcile_idempotent plain_config "T" no_files
           users_schema_and_first_record
           (reached plain_config users_schema_and_first_record)
           third_user ["id"; "name"]).
  - by_evaluation.
  - by_evaluation.
  - intros k Hk. vm_compute in Hk.
    repeat (apply elem_of_cons in Hk as [->|Hk]; [by_membership|]).
    by apply elem_of_nil in Hk.
Defined.

Lemma headers_never_shrink_witness :
  (∃ h', headers (end_state
            (run_loop plain_config "T"
               [record_of "users" [("id", JNum 2); ("email", JStr "x")];
                schema_of "users" (JObj [("properties", JObj [("id", JObj [])])]);
                Decoded (RECORD third_user)]
               (reached plain_config users_schema_and_first_record))) !! "users"
         = Some h' ∧ ["id"; "name"] `prefix_of` h') ∧
  ∀ sm, headers (on_schema plain_config sm
                   (reached plain_config users_schema_and_first_record)) !! "users"
        = Some ["id"; "name"].
Proof.
  apply (headers_never_shrink plain_config "T" no_files
           users_schema_and_first_record); by_evaluation.
Defined.

(** C8: a run that finds a staging file with one line in it.  The first
    line is read as a header row, the record is appended after it, and the
    finalized file has two lines under its header for one RECORD message and
    a record counter of one. *)
Lemma row_count_with_stale_staging_file :
  stale_files !! "/tmp/users-T.csv" = Some ["x,y"] ∧
  (∃ value uploaded fin,
     persist_messages plain_config "T" stale_files users_schema_and_first_record
     = Returned value uploaded fin ∧
     fs fin !! "/tmp/users-T.csv" = Some ["x,y,id,name"; "x,y"; ",,1,a"] ∧
     od_get "users" (record_counter fin) = Some 1) ∧
  ¬ row_count_matches plain_config "T" stale_files users_schema_and_first_record "users".
Proof.
  split; [by_evaluation|].
  destruct (persist_messages plain_config "T" stale_files users_schema_and_first_record)
    as [value uploaded fin|e fin] eqn:Hrun; [|by vm_compute in Hrun].
  pose proof Hrun as Hrun'. vm_compute in Hrun'. injection Hrun' as Hvalue Huploaded Hfin.
  split.
  - exists value, uploaded, fin. rewrite <- Hfin. split; [done|]. split; by_evaluation.
  - intros Hclaim.
    destruct (Hclaim value uploaded fin
                {| fe_filename := "/tmp/users-T.csv"; fe_target_key := "users-T.csv" |})
      as (header & rows & Hfile & Hlen & _); [done | by rewrite <- Hfin |].
    rewrite <- Hfin in Hfile. vm_compute in Hfile. injection Hfile as _ <-.
    vm_compute in Hlen. discriminate.
Qed.

Lemma row_count_fresh_staging_file_witness :
  (∃ value uploaded fin,
     persist_messages plain_config "T" no_files users_run
     = Returned value uploaded fin) ∧
  row_count_matches plain_config "T" no_files users_run "users".
Proof.
  apply (row_count_fresh_staging_file plain_config "T" no_files users_run
           (reached plain_config users_run) "users").
  - by_evaluation.
  - each_member.
  - by_evaluation.
Defined.

Lemma stream_without_records_untouched_witness :
  od_get "orders" (filenames (reached plain_config (schema_of "orders" (JObj []) :: users_run)))
  = None ∧
  headers (reached plain_config (schema_of "orders" (JObj []) :: users_run)) !! "orders"
  = None ∧
  od_get "orders"
    (record_counter (reached plain_config (schema_of "orders" (JObj []) :: users_run)))
  = None.
Proof.
  apply (stream_without_records_untouched plain_config "T" no_files
           (schema_of "orders" (JObj []) :: users_run)
           (reached plain_config (schema_of "orders" (JObj []) :: users_run))
           "orders"); by_evaluation.
Defined.

(** * The further properties on concrete runs *)

Import MoreSamples.

Local Ltac by_evaluation_ne := vm_compute; discriminate.


Lemma metrics_report_every_stream_once_witness :
  ∃ uploaded fin,
    persist_messages plain_config "T" no_files orders_and_users
    = Returned (state (reached plain_config orders_and_users)) uploaded fin ∧
    log fin
    = log (reached plain_config orders_and_users)
      ++ map (λ t, (INFO, Metric t (Some (length (records_for t orders_and_users)))))
             (first_seen (record_streams orders_and_users)) ∧
    ∀ entry, entry ∈ log (reached plain_config orders_and_users) → entry.1 ≠ INFO.
Proof.
  apply (metrics_report_every_stream_once plain_config "T" no_files orders_and_users).
  by_evaluation.
Defined.

Lemma uploaded_files_in_first_record_order_witness :
  ∃ fin,
    persist_messages plain_config "T" no_files orders_and_users
    = Returned (state (reached plain_config orders_and_users))
        (omap (staged_entry plain_config "T" orders_and_users)
              (first_seen (record_streams orders_and_users)))
        fin.
Proof.
  apply (uploaded_files_in_first_record_order plain_config "T" no_files
           orders_and_users).
  by_evaluation.
Defined.

Lemma headers_start_from_found_header_witness :
  headers (end_state (run_loop plain_config "T" users_run (initial resumed_files)))
    !! "users"
  = Some (first_seen (found_header plain_config resumed_files
                        (staging_filename plain_config "T" "users")
                      ++ keys_for plain_config "users" users_run)).
Proof.
  apply (headers_start_from_found_header plain_config "T" resumed_files users_run
           (end_state (run_loop plain_config "T" users_run (initial resumed_files)))
           "users").
  - each_member.
  - by_evaluation_ne.
  - by_evaluation.
Defined.


(** The resumed run, evaluated: the header row found in the file comes
    first, the lines found are kept under the new header, and the first row
    written is not widened for the column the second record adds. *)
Example resumed_run_result :
  final_fs (main plain_config "T" resumed_files users_run) !! "/tmp/users-T.csv"
  = Some ["name,age,id,email"; "name,age"; "z,40"; "a,,1"; "b,,2,x"].
Proof. vm_compute; reflexivity. Qed.



(** The registries after that run: the schema sent last for [users]. *)
Example last_schema_wins_result :
  schemas (reached plain_config orders_and_users) !! "users" = Some (JBool true) ∧
  last (schemas_for "users" orders_and_users)
  = Some {| sm_stream := "users"; sm_schema := JBool true; sm_key_properties := [] |}.
Proof. split; vm_compute; reflexivity. Qed.

(** The run of two interleaved streams, evaluated: one upload entry and one
    metric per stream, in the order of the streams' first records. *)
Example orders_and_users_result :
  omap (staged_entry plain_config "T" orders_and_users)
       (first_seen (record_streams orders_and_users))
  = [ {| fe_filename := "/tmp/users-T.csv"; fe_target_key := "users-T.csv" |};
      {| fe_filename := "/tmp/orders-T.csv"; fe_target_key := "orders-T.csv" |} ] ∧
  final_log (main plain_config "T" no_files orders_and_users)
  = [ (DEBUG, ActivateVersionSeen);
      (WARNING, UnknownMessageType "BATCH");
      (DEBUG, SettingState (JStr "bookmark-2"));
      (INFO, Metric "users" (Some 2));
      (INFO, Metric "orders" (Some 1));
      (DEBUG, EmittingState (JStr "bookmark-2"));
      (DEBUG, ExitingNormally) ].
Proof. split; vm_compute; reflexivity. Qed.
